(** * chromabot: the command layer ([commands.py]) and its collaborators

    The command handlers of [commands.py] are embedded as programs of a small
    state-and-exception monad.  The state is the SQLAlchemy session (a pending
    view and the last committed view of the tables) together with a trace of
    the effects the handler performed: remote calls, log lines, commits,
    rollbacks and calls into the game engine.

    The game engine ([db.py]), [utils.py] and the messaging client (praw) are
    not part of the sources.  The handlers take them as records of operations
    ([Engine], [World]); a reference engine written after the specification
    is given in [SpecEngine] and used for the concrete scenarios. *)

From Stdlib Require Import ZArith Ascii DecimalString DecimalPos DecimalZ.
From stdpp Require Import gmap strings list.

Open Scope Z_scope.

(** ** Text: Python [str] values *)

Definition chars (s : string) : list ascii := String.list_ascii_of_string s.
Definition text (l : list ascii) : string := String.string_of_list_ascii l.

Definition NL : string := String (Ascii.ascii_of_nat 10) EmptyString.

(** ["%d" % z] *)
Definition fmt_d (z : Z) : string := NilZero.string_of_int (Z.to_int z).

(** [isspace] on a byte: tab, line feed, vertical tab, form feed, carriage
    return and space *)
Definition is_space (c : ascii) : bool :=
  let n := Ascii.nat_of_ascii c in
  bool_decide (9 <= n <= 13 \/ n = 32)%nat.

Fixpoint lstrip (l : list ascii) : list ascii :=
  match l with
  | [] => []
  | c :: l' => if is_space c then lstrip l' else l
  end.

(** [s.strip()] *)
Definition strip (l : list ascii) : list ascii := rev (lstrip (rev (lstrip l))).

(** An optional minus sign followed by decimal digits *)
Definition py_decimal (s : string) : option Z := Z.of_int <$> NilZero.int_of_string s.

(** [int(s)] on a byte string: the white space around the number is dropped;
    what is left is an optional sign, plus or minus, followed by decimal
    digits.  Any other string is a [ValueError] ([None] here). *)
Definition py_int (s : string) : option Z :=
  match strip (chars s) with
  | [] => None
  | c :: ds =>
      if Ascii.eqb c "+"
      then Z.of_int <$> (Decimal.Pos <$> NilZero.uint_of_string (text ds))
      else py_decimal (text (c :: ds))
  end.

(** [s.lower()] on a byte string. *)
Definition lower_char (c : ascii) : ascii :=
  let n := Ascii.nat_of_ascii c in
  if bool_decide (65 <= n <= 90)%nat then Ascii.ascii_of_nat (n + 32) else c.

Fixpoint lower (s : string) : string :=
  match s with
  | EmptyString => EmptyString
  | String c s' => String (lower_char c) (lower s')
  end.

(** ** Regular expressions

    Both patterns compiled by [extract_subskirmish] have the shape
    [literal (\d+) literal].  [re_search] is [regex.search(...)] followed by
    [.group(1)]: the leftmost position where the pattern matches, the digit
    group being greedy with backtracking. *)

Record Regex := { re_before : string; re_after : string }.

(** [\d] on a byte string *)
Definition is_digit (c : ascii) : bool :=
  match Ascii.is_nat c with Some _ => true | None => false end.

Fixpoint strip_prefix (p s : list ascii) : option (list ascii) :=
  match p, s with
  | [], _ => Some s
  | a :: p', b :: s' => if bool_decide (a = b) then strip_prefix p' s' else None
  | _ :: _, [] => None
  end.

Fixpoint span_digits (s : list ascii) : list ascii * list ascii :=
  match s with
  | c :: s' =>
      if is_digit c then let '(ds, rest) := span_digits s' in (c :: ds, rest)
      else ([], s)
  | [] => ([], [])
  end.

(** Try the group with [k] digits, then with fewer, never with none. *)
Fixpoint backtrack (k : nat) (ds rest after : list ascii) : option (list ascii) :=
  match k with
  | O => None
  | S k' =>
      match strip_prefix after (drop k ds ++ rest) with
      | Some _ => Some (take k ds)
      | None => backtrack k' ds rest after
      end
  end.

Definition match_at (re : Regex) (s : list ascii) : option (list ascii) :=
  match strip_prefix (chars (re_before re)) s with
  | Some rest =>
      let '(ds, rest') := span_digits rest in
      backtrack (length ds) ds rest' (chars (re_after re))
  | None => None
  end.

Fixpoint search_from (re : Regex) (s : list ascii) : option (list ascii) :=
  match match_at re s with
  | Some g => Some g
  | None =>
      match s with
      | [] => None
      | _ :: s' => search_from re s'
      end
  end.

Definition re_search (re : Regex) (s : string) : option string :=
  text <$> search_from re (chars s).

(** [r"\(subskirmish (\d+)\)"] *)
Definition subskirmish_re : Regex :=
  {| re_before := "(subskirmish "; re_after := ")" |}.

(** [r"Skirmish #(\d+)\*"] *)
Definition skirmish_re : Regex :=
  {| re_before := "Skirmish #"; re_after := "*" |}.

(** ** Rows of the database ([db.py]) *)

Module Region.
Record t := mk {
  id : Z;
  name : string;
  srname : string;
  owner : Z;
  adjacent : list Z
}.
End Region.

Module User.
Record t := mk {
  name : string;
  team : Z;
  rank : Z;
  leader : bool;
  region : Region.t;
  loyalists : Z;
  committed_loyalists : Z;
  defectable : bool
}.

Definition set_defectable (v : bool) (u : t) : t :=
  mk (name u) (team u) (rank u) (leader u) (region u) (loyalists u)
     (committed_loyalists u) v.
End User.

Module Battle.
Record t := mk {
  id : Z;
  region : Region.t;
  begins : Z;
  lockout : Z;
  submission_id : option string;
  resolved : bool
}.

Definition set_lockout (v : Z) (b : t) : t :=
  mk (id b) (region b) (begins b) v (submission_id b) (resolved b).

Definition set_submission_id (v : string) (b : t) : t :=
  mk (id b) (region b) (begins b) (lockout b) (Some v) (resolved b).
End Battle.

Module SkirmishAction.
Record t := mk {
  id : Z;
  parent : option Z;
  battle : option Z;
  participant : string;
  amount : Z;
  troop_type : string;
  hinder : bool;
  comment_id : option string
}.

Definition set_comment_id (v : string) (s : t) : t :=
  mk (id s) (parent s) (battle s) (participant s) (amount s) (troop_type s)
     (hinder s) (Some v).
End SkirmishAction.

Module MovementOrder.
Record t := mk {
  player : string;
  dest : Region.t;
  amount : Z;
  departure : Z;
  arrival : Z
}.
End MovementOrder.

Module Processed.
Record t := mk { id36 : string; battle : Z }.
End Processed.

(** The tables as one handler sees them.  [player] is the row of the user who
    sent the command: the handler holds a reference to this row
    ([context.player]) and so does the engine; [users] are the other rows of
    that table. *)
Record DB := {
  player : User.t;
  users : list User.t;
  regions : list Region.t;
  battles : list Battle.t;
  skirmishes : list SkirmishAction.t;
  orders : list MovementOrder.t;
  processed : list Processed.t
}.

(** A session: the rows as changed so far and the rows as last committed. *)
Record Session := { pending : DB; committed : DB }.

Definition session_commit (s : Session) : Session :=
  {| pending := pending s; committed := pending s |}.

Definition session_rollback (s : Session) : Session :=
  {| pending := committed s; committed := committed s |}.

Definition with_pending (f : DB -> DB) (s : Session) : Session :=
  {| pending := f (pending s); committed := committed s |}.

Definition update_player (f : User.t -> User.t) (d : DB) : DB :=
  {| player := f (player d); users := users d; regions := regions d; battles := battles d;
     skirmishes := skirmishes d; orders := orders d; processed := processed d |}.

(** Attribute assignment on a row held by the session: the row with this
    primary key changes. *)
Definition update_battle (k : Z) (f : Battle.t -> Battle.t) (d : DB) : DB :=
  {| player := player d; users := users d; regions := regions d;
     battles := (fun b => if bool_decide (Battle.id b = k) then f b else b) <$> battles d;
     skirmishes := skirmishes d; orders := orders d; processed := processed d |}.

Definition update_skirmish (k : Z) (f : SkirmishAction.t -> SkirmishAction.t)
    (d : DB) : DB :=
  {| player := player d; users := users d; regions := regions d; battles := battles d;
     skirmishes :=
       (fun s => if bool_decide (SkirmishAction.id s = k) then f s else s) <$> skirmishes d;
     orders := orders d; processed := processed d |}.

(** [session.add(Processed(...))] *)
Definition add_processed (p : Processed.t) (d : DB) : DB :=
  {| player := player d; users := users d; regions := regions d; battles := battles d;
     skirmishes := skirmishes d; orders := orders d;
     processed := processed d ++ [p] |}.

(** ** Exceptions *)

(** What an [InProgressException] carries in [other]. *)
Inductive Other :=
| OtherBattle (b : Battle.t)
| OtherMovementOrder (o : MovementOrder.t)
| OtherSkirmishAction (s : SkirmishAction.t).

Inductive Exn :=
| APIException
| Timeout
| RankException
| TeamException (friendly : bool)
| NonAdjacentException
| InProgressException (other : Other)
| InsufficientException (requested available : Z)
| NotPresentException (actually_am : Region.t)
| TimingException (side : string)
| KeyError (key : string)
| ValueError
| AttributeError (attr : string).

Inductive Result (A : Type) :=
| Ret (a : A)
| Raise (e : Exn).
Arguments Ret {A} a.
Arguments Raise {A} e.

(** ** Objects of the messaging client *)

(** The message that carried the command. *)
Module Comment.
Record t := mk {
  name : string;
  link_id : string;
  parent_id : string;
  author : option string;
  was_comment : option bool   (* [None]: the attribute is not set *)
}.
End Comment.

(** A thing returned by the client: a fetched message, a posted reply or a
    submitted thread. *)
Module Thing.
Record t := mk { name : string; author : option string; body : string }.
End Thing.

(** ** Effects *)

Inductive Event :=
| EvReply (reply : string)
| EvSubmit (srname title body : string)
| EvGetInfo (thing_id : string)
| EvWarning (message : string)
| EvCommit
| EvRollback
| EvInvade (dest : Region.t) (begins : Z)
| EvMove (amount : Z) (dest : Region.t) (time_taken : Z)
| EvCreateSkirmish (battle : Battle.t) (amount : Z) (troop_type : string)
| EvReact (parent : SkirmishAction.t) (amount : Z) (hinder : bool)
    (troop_type : string).

Record HState := { session : Session; trace : list Event }.

Definition M (A : Type) : Type := HState -> Result A * HState.

Definition ret {A} (a : A) : M A := fun st => (Ret a, st).

Definition raise {A} (e : Exn) : M A := fun st => (Raise e, st).

Definition bind {A B} (m : M A) (k : A -> M B) : M B :=
  fun st =>
    match m st with
    | (Ret a, st') => k a st'
    | (Raise e, st') => (Raise e, st')
    end.

(** [try: body except ...]: [handler e] is [None] when no clause catches [e]. *)
Definition try_except {A} (body : M A) (handler : Exn -> option (M A)) : M A :=
  fun st =>
    match body st with
    | (Ret a, st') => (Ret a, st')
    | (Raise e, st') =>
        match handler e with
        | Some h => h st'
        | None => (Raise e, st')
        end
    end.

Declare Scope py_scope.
Delimit Scope py_scope with py.
Notation "x <- m ;; k" := (bind m (fun x => k))
  (at level 20, m at level 99, k at level 200, only parsing) : py_scope.
Notation "m ;; k" := (bind m (fun _ => k))
  (at level 100, k at level 200, only parsing, right associativity) : py_scope.
Open Scope py_scope.

Definition emit (ev : Event) : M unit :=
  fun st => (Ret tt, {| session := session st; trace := trace st ++ [ev] |}).

Definition get_session : M Session := fun st => (Ret (session st), st).

Definition modify_session (f : Session -> Session) : M unit :=
  fun st => (Ret tt, {| session := f (session st); trace := trace st |}).

(** [context.session.commit()] and [context.session.rollback()] *)
Definition commit : M unit := emit EvCommit ;; modify_session session_commit.
Definition rollback : M unit := emit EvRollback ;; modify_session session_rollback.

(** [logging.warning(...)] and [logging.warn(...)] *)
Definition warning (message : string) : M unit := emit (EvWarning message).

(** ** The collaborators *)

(** The messaging client and the clock.  Every answer may depend on what
    happened before (the trace so far): a call that times out once may succeed
    the next time. *)
Record World := {
  comment_reply : list Event -> string -> Result (option Thing.t);
  reddit_submit : list Event -> string -> string -> string -> Result (option Thing.t);
  reddit_get_info : list Event -> string -> Result (option Thing.t);
  clock : list Event -> Z
}.

(** The methods of [db.py] and [utils.py] that the handlers call.  The acting
    player is the [player] row of the session the operation runs in. *)
Record Engine := {
  invade : Region.t -> Z -> Session -> Result Battle.t * Session;
  move : Z -> Region.t -> Z -> Session -> Result (option MovementOrder.t) * Session;
  create_skirmish : Battle.t -> Z -> string -> Session -> Result SkirmishAction.t * Session;
  react : SkirmishAction.t -> Z -> bool -> string -> Session ->
          Result SkirmishAction.t * Session;
  is_moving : Session -> option MovementOrder.t;
  get_root : SkirmishAction.t -> Session -> SkirmishAction.t;
  get_battle : SkirmishAction.t -> Session -> option Battle.t;
  region_markdown : Region.t -> string;
  battle_markdown : Battle.t -> string -> string;
  begins_str : Battle.t -> string;
  arrival_str : MovementOrder.t -> string;
  num_to_team : Z -> string
}.

Record Config := { game : gmap string Z; username : string }.

Record Context := { config : Config; comment : Comment.t }.

Definition remote {A} (ev : Event) (answer : list Event -> Result A) : M A :=
  fun st =>
    (answer (trace st), {| session := session st; trace := trace st ++ [ev] |}).

Definition engine {A} (ev : Event) (op : Session -> Result A * Session) : M A :=
  fun st =>
    let '(r, s) := op (session st) in
    (r, {| session := s; trace := trace st ++ [ev] |}).

Definition get_player : M User.t :=
  fun st => (Ret (player (pending (session st))), st).

(** [sess.query(T).filter_by(...).first()] and [.count()] *)
Definition query_first {A} (table : DB -> list A) (p : A -> bool) : M (option A) :=
  fun st => (Ret (List.find p (table (pending (session st)))), st).

Definition query_count {A} (table : DB -> list A) (p : A -> bool) : M nat :=
  fun st => (Ret (length (List.filter p (table (pending (session st))))), st).

(** [context.config["game"][key]] *)
Definition config_game (context : Context) (key : string) : M Z :=
  match game (config context) !! key with
  | Some v => ret v
  | None => raise (KeyError key)
  end.

(** [time.mktime(time.localtime())] *)
Definition time_now (W : World) : M Z := fun st => (Ret (clock W (trace st)), st).

(** *** [failable] and [Context] *)

Definition failable {A} (f : M (option A)) : M (option A) :=
  try_except f
    (fun e =>
       match e with
       | APIException => Some (warning "Reddit API call failed! " ;; ret None)
       | Timeout => Some (warning "Socket timeout! " ;; ret None)
       | _ => None
       end).

Definition Context_reply (W : World) (reply : string) : M (option Thing.t) :=
  failable (remote (EvReply reply) (fun tr => comment_reply W tr reply)).

Definition Context_submit (W : World) (srname title body : string)
    : M (option Thing.t) :=
  failable (remote (EvSubmit srname title body)
              (fun tr => reddit_submit W tr srname title body)).

(** *** [Command] *)

(** [Command.get_region]; [self_where] is [self.where], which the refusal
    quotes. *)
Definition get_region (W : World) (where_ self_where : string) (require : bool)
    : M (option Region.t) :=
  dest <- query_first regions (fun r => bool_decide (Region.name r = where_)) ;;
  dest <- match dest with
          | Some _ => ret dest
          | None => query_first regions (fun r => bool_decide (Region.srname r = where_))
          end ;;
  match dest with
  | Some _ => ret dest
  | None =>
      if require then
        Context_reply W
          ("I don't know any region or subreddit named '" +:+ self_where +:+ "'") ;;
        ret dest
      else ret dest
  end.

(** [ipe.other.markdown("already")]: only a battle is rendered this way. *)
Definition other_markdown (E : Engine) (other : Other) (how : string) : M string :=
  match other with
  | OtherBattle b => ret (battle_markdown E b how)
  | _ => raise (AttributeError "markdown")
  end.

(** *** [InvadeCommand] *)

Module InvadeCommand.
Record t := mk { where_ : string }.

Definition init (tokens : gmap string string) : Result t :=
  match tokens !! "where" with
  | Some w => Ret (mk (lower w))
  | None => Raise (KeyError "where")
  end.

Definition announcement (when : string) : string :=
  "Negotiations have broken down, and the trumpets of " +:+
  "war have sounded.  Even now, civilians are being " +:+
  "evacuated and the able-bodied drafted.  The conflict " +:+
  "will soon be upon you." +:+ NL +:+ NL +:+
  "Gather your forces while you can, for your enemy " +:+
  "shall arrive at " +:+ when.

(** The [except] clauses of [execute] *)
Definition refuse (E : Engine) (W : World) (dest : Region.t) (e : Exn)
    : option (M unit) :=
  match e with
  | RankException =>
      Some (Context_reply W
              ("You don't have the authority " +:+ "to invade a region!") ;;
            ret tt)
  | TeamException _ =>
      Some (Context_reply W
              ("You can't invade " +:+ region_markdown E dest +:+
               ", you already own it!") ;;
            ret tt)
  | NonAdjacentException =>
      Some (Context_reply W
              (region_markdown E dest +:+
               " is not next to any territory you control") ;;
            ret tt)
  | InProgressException other =>
      Some (already <- other_markdown E other "already" ;;
            Context_reply W
              (region_markdown E dest +:+ " is " +:+ already +:+
               " being invaded!") ;;
            ret tt)
  | _ => None
  end.

(** The block under [if battle:] *)
Definition announce (E : Engine) (W : World) (dest : Region.t) (battle : Battle.t)
    : M unit :=
  Context_reply W ("**Confirmed**  Battle will begin at " +:+ begins_str E battle) ;;
  p <- get_player ;;
  let title :=
    "[Invasion] The " +:+ num_to_team E (User.team p) +:+ " armies march!" in
  let body := announcement (begins_str E battle) in
  submitted <- Context_submit W (Region.srname dest) title body ;;
  match submitted with
  | Some submitted =>
      modify_session
        (with_pending
           (update_battle (Battle.id battle)
              (Battle.set_submission_id (Thing.name submitted)))) ;;
      commit
  | None =>
      warning "Couldn't submit invasion thread" ;;
      rollback
  end.

(** The assignment [battle.lockout = ...] changes the row held by the
    session and the object the handler goes on with. *)
Definition execute (E : Engine) (W : World) (self : t) (context : Context)
    : M unit :=
  dest <- get_region W (where_ self) (where_ self) true ;;
  match dest with
  | None => ret tt
  | Some dest =>
      now <- time_now W ;;
      delay <- config_game context "battle_delay" ;;
      let begins := now + delay in
      battle <-
        try_except
          (battle <- engine (EvInvade dest begins) (invade E dest begins) ;;
           if bool_decide (is_Some (game (config context) !! "battle_lockout")) then
             lockout <- config_game context "battle_lockout" ;;
             modify_session
               (with_pending
                  (update_battle (Battle.id battle) (Battle.set_lockout lockout))) ;;
             commit ;;
             ret (Some (Battle.set_lockout lockout battle))
           else ret (Some battle))
          (fun e =>
             match refuse E W dest e with
             | Some clause => Some (clause ;; ret None)
             | None => None
             end) ;;
      match battle with
      | None => ret tt
      | Some battle => announce E W dest battle
      end
  end.
End InvadeCommand.

(** *** [MoveCommand] *)

Module MoveCommand.
Record t := mk { amount : Z; where_ : string }.

Definition init (tokens : gmap string string) : Result t :=
  match
    match tokens !! "amount" with
    | Some a => match py_int a with Some n => Ret n | None => Raise ValueError end
    | None => Ret (-1)
    end
  with
  | Ret amount =>
      match tokens !! "where" with
      | Some w => Ret (mk amount (lower w))
      | None => Raise (KeyError "where")
      end
  | Raise e => Raise e
  end.

(** What [execute] hands to [player.move]: -1 means 'everyone'. *)
Definition decoded_amount (self : t) (p : User.t) : Z :=
  if bool_decide (amount self = -1) then User.loyalists p else amount self.

(** The two reports of an [InProgressException] *)
Definition already_leading (E : Engine) (o : MovementOrder.t) : string :=
  "You are already leading your armies to " +:+
  region_markdown E (MovementOrder.dest o) +:+ " - " +:+
  "you can give further orders upon your arrival at " +:+ arrival_str E o.

Definition committed_to_battle (E : Engine) (b : Battle.t) : string :=
  "You have committed your armies to the battle at " +:+
  region_markdown E (Battle.region b) +:+ " - " +:+
  "you must see this through to the bitter end.".

(** The two confirmations *)
Definition confirmed (E : Engine) (amount : Z) (dest : Region.t)
    (order : option MovementOrder.t) : string :=
  match order with
  | Some o =>
      "**Confirmed**: You are leading " +:+ fmt_d amount +:+
      " of your people to " +:+ region_markdown E dest +:+ ". " +:+
      "You will arrive at " +:+ arrival_str E o +:+ "."
  | None =>
      "**Confirmed**: You have lead " +:+ fmt_d amount +:+
      " of your people to " +:+ region_markdown E dest +:+ "."
  end.

(** The [except] clauses of [execute]; each ends in [return]. *)
Definition refuse (E : Engine) (W : World) (self : t) (dest : Region.t) (e : Exn)
    : option (M unit) :=
  match e with
  | InsufficientException requested available =>
      Some (Context_reply W
              ("You cannot move " +:+ fmt_d requested +:+
               " of your people - you only have " +:+ fmt_d available) ;;
            ret tt)
  | NonAdjacentException =>
      Some (p <- get_player ;;
            Context_reply W
              ("Your current region, " +:+ region_markdown E (User.region p) +:+
               ", is not adjacent to " +:+ region_markdown E dest) ;;
            ret tt)
  | InProgressException other =>
      (* Determine if there's a move in progress or a battle *)
      Some (match other with
            | OtherMovementOrder o => Context_reply W (already_leading E o)
            | OtherSkirmishAction s =>
                sess <- get_session ;;
                match get_battle E s sess with
                | Some b => Context_reply W (committed_to_battle E b)
                | None => raise (AttributeError "region")
                end
            | OtherBattle _ => raise (AttributeError "get_battle")
            end ;;
            ret tt)
  | TeamException _ =>
      Some (Context_reply W
              (where_ self +:+ " is not friendly territory - invade first " +:+
               "if you want to go there") ;;
            ret tt)
  | _ => None
  end.

(** The body of the [try] ends either by falling through with the value of
    [order] ([Some order]) or by the [return] of an [except] clause ([None]). *)
Definition execute (E : Engine) (W : World) (self : t) (context : Context)
    : M unit :=
  dest <- get_region W (where_ self) (where_ self) true ;;
  match dest with
  | None => ret tt
  | Some dest =>
      p <- get_player ;;
      let amount := decoded_amount self p in
      order <-
        try_except
          (speed <- config_game context "speed" ;;
           let time_taken := speed in
           order <- engine (EvMove amount dest time_taken)
                      (move E amount dest time_taken) ;;
           ret (Some order))
          (fun e =>
             match refuse E W self dest e with
             | Some clause => Some (clause ;; ret None)
             | None => None
             end) ;;
      match order with
      | None => ret tt
      | Some order =>
          modify_session (with_pending (update_player (User.set_defectable false))) ;;
          Context_reply W (confirmed E amount dest order) ;;
          commit
      end
  end.
End MoveCommand.

(** *** [SkirmishCommand] *)

Module SkirmishCommand.
Definition ALIASES : gmap string string :=
  list_to_map [("calvalry", "cavalry"); ("calvary", "cavalry"); ("range", "ranged")].

Record t := mk { action : string; amount : Z; troop_type : string }.

Definition init (tokens : gmap string string) : Result t :=
  match tokens !! "action" with
  | None => Raise (KeyError "action")
  | Some a =>
      let action := default a (ALIASES !! a) in
      let action := if bool_decide (action = "oppose") then "attack" else action in
      match tokens !! "amount" with
      | None => Raise (KeyError "amount")
      | Some n =>
          match py_int n with
          | None => Raise ValueError
          | Some amount =>
              Ret (mk action amount
                     match tokens !! "troop_type" with
                     | Some ty => default ty (ALIASES !! ty)
                     | None => "infantry"
                     end)
          end
      end
  end.

(** [getattr(context.comment, 'was_comment', True)] *)
Definition getattr_was_comment (c : Comment.t) : bool :=
  default true (Comment.was_comment c).

Definition find_skirmish_named (name : string) : M (option SkirmishAction.t) :=
  query_first skirmishes
    (fun s => bool_decide (SkirmishAction.comment_id s = Some name)).

Definition find_skirmish_by_id (skid : Z) : M (option SkirmishAction.t) :=
  query_first skirmishes (fun s => bool_decide (SkirmishAction.id s = skid)).

(** The two searches at the end of [extract_subskirmish]; [int(...)] of a
    group that is no number would be a [ValueError]. *)
Definition extract_marker (body : string) : Result (option Z) :=
  match re_search subskirmish_re body with
  | Some g =>
      match py_int g with Some n => Ret (Some n) | None => Raise ValueError end
  | None =>
      match re_search skirmish_re body with
      | Some g =>
          match py_int g with Some n => Ret (Some n) | None => Raise ValueError end
      | None => Ret None
      end
  end.

Definition extract_subskirmish (W : World) (context : Context) (battle : Battle.t)
    : M (option Z) :=
  failable
    match Comment.author (comment context) with
    | None => ret None
    | Some _ =>
        let pid := Comment.parent_id (comment context) in
        found <- query_count processed
                   (fun p => bool_decide (Processed.id36 p = pid)) ;;
        if bool_decide (found <> O) then ret None
        else
          parent <- remote (EvGetInfo pid) (fun tr => reddit_get_info W tr pid) ;;
          match parent with
          | None => warning ("Can't get parent " +:+ pid) ;; ret None
          | Some parent =>
              match Thing.author parent with
              | None => ret None
              | Some author =>
                  if bool_decide (author <> username (config context)) then
                    modify_session
                      (with_pending
                         (add_processed
                            (Processed.mk (Thing.name parent) (Battle.id battle)))) ;;
                    commit ;;
                    ret None
                  else
                    fun st => (extract_marker (Thing.body parent), st)
              end
          end
    end.

(** The confirmation that [execute] posts. *)
Definition confirmation (amount : Z) (troop_type : string) (root_id : Z)
    (subskirmish : string) (total : Z) (team_name : string) : string :=
  "**Confirmed**: You have committed " +:+ fmt_d amount +:+ " of your " +:+
  "forces as **" +:+ troop_type +:+ "** to **Skirmish #" +:+ fmt_d root_id +:+
  "**" +:+ subskirmish +:+ "." +:+ NL +:+ NL +:+ "As of now, you " +:+
  "have committed " +:+ fmt_d total +:+ " total.  **For " +:+ team_name +:+ "!**".

Definition subskirmish_marker (root_id skirmish_id : Z) : string :=
  if bool_decide (root_id <> skirmish_id)
  then " (subskirmish " +:+ fmt_d skirmish_id +:+ ")"
  else EmptyString.

(** The reply that confirms [skirmish] in session [sess]. *)
Definition confirmation_for (E : Engine) (skirmish : SkirmishAction.t)
    (sess : Session) : string :=
  let root_id := SkirmishAction.id (get_root E skirmish sess) in
  confirmation (SkirmishAction.amount skirmish)
    (SkirmishAction.troop_type skirmish) root_id
    (subskirmish_marker root_id (SkirmishAction.id skirmish))
    (User.committed_loyalists (player (pending sess)))
    (num_to_team E (User.team (player (pending sess)))).

(** The skirmish the command replies to: the tracked parent, else the one
    recovered from the text of the parent message. *)
Definition resolve_parent (W : World) (context : Context) (current : Battle.t)
    : M (option SkirmishAction.t) :=
  parent <- find_skirmish_named (Comment.parent_id (comment context)) ;;
  match parent with
  | Some _ => ret parent
  | None =>
      sub <- extract_subskirmish W context current ;;
      match sub with
      | Some sub =>
          if bool_decide (sub <> 0) then find_skirmish_by_id sub else ret None
      | None => ret None
      end
  end.

(** The end of the [try] block: the confirmation is posted, then the
    skirmish is linked to the comment and committed. *)
Definition confirm (E : Engine) (W : World) (context : Context)
    (skirmish : SkirmishAction.t) : M unit :=
  sess <- get_session ;;
  Context_reply W (confirmation_for E skirmish sess) ;;
  modify_session
    (with_pending
       (update_skirmish (SkirmishAction.id skirmish)
          (SkirmishAction.set_comment_id (Comment.name (comment context))))) ;;
  commit.

(** Inside the [try], [None] stands for the early [return]. *)
Definition execute (E : Engine) (W : World) (self : t) (context : Context)
    : M unit :=
  if negb (getattr_was_comment (comment context)) then
    Context_reply W
      ("You must enter your skirmish commands in the " +:+
       "appropriate battle post") ;;
    ret tt
  else
    let post_id := Comment.link_id (comment context) in
    current <- query_first battles
                 (fun b => bool_decide (Battle.submission_id b = Some post_id)) ;;
    match current with
    | None => Context_reply W "There's no battle happening here!" ;; ret tt
    | Some current =>
        try_except
          (skirmish <-
             (if bool_decide (post_id = Comment.parent_id (comment context)) then
                skirmish <- engine
                              (EvCreateSkirmish current (amount self) (troop_type self))
                              (create_skirmish E current (amount self)
                                 (troop_type self)) ;;
                ret (Some skirmish)
              else
                parent <- resolve_parent W context current ;;
                match parent with
                | None =>
                    Context_reply W
                      ("You can only use skirmish commands in " +:+
                       "reply to other confirmed skirmish " +:+
                       "commands") ;;
                    ret None
                | Some parent =>
                    let hinder := bool_decide (action self = "attack") in
                    skirmish <- engine
                                  (EvReact parent (amount self) hinder
                                     (troop_type self))
                                  (react E parent (amount self) hinder
                                     (troop_type self)) ;;
                    ret (Some skirmish)
                end) ;;
           match skirmish with
           | None => ret tt
           | Some skirmish => confirm E W context skirmish
           end)
          (fun e =>
             match e with
             | NotPresentException actually_am =>
                 Some (let standard :=
                         "Your armies are currently in " +:+
                         region_markdown E actually_am +:+
                         " and thus cannot " +:+
                         "participate in this battle." in
                       sess <- get_session ;;
                       let marching :=
                         match is_moving E sess with
                         | Some moving =>
                             NL +:+ NL +:+ "(Your forces will arrive in " +:+
                             region_markdown E (MovementOrder.dest moving) +:+
                             " at " +:+ arrival_str E moving +:+ " )"
                         | None => EmptyString
                         end in
                       Context_reply W (standard +:+ marching) ;;
                       ret tt)
             | TeamException friendly =>
                 Some (if friendly
                       then Context_reply W "You cannot attack someone on your team" ;;
                            ret tt
                       else Context_reply W "You cannot aid the enemy!" ;; ret tt)
             | InProgressException _ =>
                 Some (Context_reply W
                         ("You can only spearhead one offensive per battle " +:+
                          "(though you may still assist others)") ;;
                       ret tt)
             | InsufficientException requested _ =>
                 Some (if bool_decide (requested <= 0) then
                         Context_reply W "You must use at least 1 troop!" ;; ret tt
                       else
                         p <- get_player ;;
                         Context_reply W
                           ("You don't have " +:+ fmt_d requested +:+
                            " troops to spare! " +:+
                            "(you have committed " +:+
                            fmt_d (User.committed_loyalists p) +:+ " total)") ;;
                         ret tt)
             | TimingException side =>
                 Some (if bool_decide (side = "late") then
                         Context_reply W
                           ("Top-level attacks are disallowed in the last " +:+
                            fmt_d (Battle.lockout current) +:+
                            " seconds of a battle") ;;
                         ret tt
                       else Context_reply W "The battle has not yet begun!" ;; ret tt)
             | _ => None
             end)
    end.
End SkirmishCommand.

(** ** A reference engine

    [db.py] is not part of the sources.  The operations below follow the
    specification of the engine (sections 4.1, 4.2 and 4.4); they serve the
    concrete scenarios, while the results on the handlers hold for every
    [Engine]. *)

Module SpecEngine.
Definition fresh (ids : list Z) : Z := 1 + foldr Z.max 0 ids.

Definition add_battle (b : Battle.t) (d : DB) : DB :=
  {| player := player d; users := users d; regions := regions d;
     battles := battles d ++ [b]; skirmishes := skirmishes d;
     orders := orders d; processed := processed d |}.

Definition add_order (o : MovementOrder.t) (d : DB) : DB :=
  {| player := player d; users := users d; regions := regions d;
     battles := battles d; skirmishes := skirmishes d;
     orders := orders d ++ [o]; processed := processed d |}.

Definition add_skirmish (s : SkirmishAction.t) (d : DB) : DB :=
  {| player := player d; users := users d; regions := regions d;
     battles := battles d; skirmishes := skirmishes d ++ [s];
     orders := orders d; processed := processed d |}.

Definition set_region (r : Region.t) (u : User.t) : User.t :=
  User.mk (User.name u) (User.team u) (User.rank u) (User.leader u) r
    (User.loyalists u) (User.committed_loyalists u) (User.defectable u).

Definition reserve (n : Z) (u : User.t) : User.t :=
  User.mk (User.name u) (User.team u) (User.rank u) (User.leader u)
    (User.region u) (User.loyalists u) (User.committed_loyalists u + n)
    (User.defectable u).

Definition is_adjacent (a b : Region.t) : bool :=
  bool_decide (Region.id b ∈ Region.adjacent a).

Definition unresolved_battle_of (d : DB) (r : Region.t) : option Battle.t :=
  List.find
    (fun b => bool_decide (Region.id (Battle.region b) = Region.id r)
              && negb (Battle.resolved b))
    (battles d).

(** Modelled from the spec: [Region.invade] of [db.py], section 4.1 -
    RankException if the player's rank lacks invasion authority (which
    ranks have it is left to [authority]), TeamException if the player's
    team already owns the region, NonAdjacentException if the player's
    current region is not adjacent to the target, InProgressException
    carrying the existing Battle if the target already has an unresolved
    one; on success a Battle in the scheduled state with the given begin
    time is created and returned.  Following section 5 the new row is not
    committed by the engine. *)
Definition invade (authority : User.t -> bool) (dest : Region.t) (begins : Z)
    (sess : Session) : Result Battle.t * Session :=
  let d := pending sess in
  let p := player d in
  if negb (authority p) then (Raise RankException, sess)
  else if bool_decide (Region.owner dest = User.team p)
  then (Raise (TeamException true), sess)
  else if negb (is_adjacent (User.region p) dest)
  then (Raise NonAdjacentException, sess)
  else
    match unresolved_battle_of d dest with
    | Some existing => (Raise (InProgressException (OtherBattle existing)), sess)
    | None =>
        let b := Battle.mk (fresh (Battle.id <$> battles d)) dest begins 0 None false in
        (Ret b, with_pending (add_battle b) sess)
    end.

Definition open_order_of (d : DB) : option MovementOrder.t :=
  List.find
    (fun o => bool_decide (MovementOrder.player o = User.name (player d)))
    (orders d).

Definition battle_unresolved (d : DB) (k : Z) : bool :=
  match List.find (fun b => bool_decide (Battle.id b = k)) (battles d) with
  | Some b => negb (Battle.resolved b)
  | None => false
  end.

(** The player's root skirmish in an unresolved battle, if any. *)
Definition open_offensive_of (d : DB) : option SkirmishAction.t :=
  List.find
    (fun s =>
       bool_decide (SkirmishAction.participant s = User.name (player d))
       && bool_decide (SkirmishAction.parent s = None)
       && match SkirmishAction.battle s with
          | Some k => battle_unresolved d k
          | None => false
          end)
    (skirmishes d).

(** Modelled from the spec: [User.move] of [db.py], section 4.2 - the amount
    must not exceed the player's loyalists (InsufficientException carrying
    requested and available), the destination must be adjacent to the
    player's current region (NonAdjacentException) and owned by the
    player's team (TeamException), and the player must have no unresolved
    MovementOrder and no unresolved top-level offensive commitment
    (InProgressException carrying whichever blocks).  A zero-transit move
    returns None ("already arrived"), otherwise the created MovementOrder
    is returned; the player is marked non-defectable.  [now] is the
    engine's clock. *)
Definition move (now : Z) (amount : Z) (dest : Region.t) (transit : Z)
    (sess : Session) : Result (option MovementOrder.t) * Session :=
  let d := pending sess in
  let p := player d in
  if bool_decide (User.loyalists p < amount)
  then (Raise (InsufficientException amount (User.loyalists p)), sess)
  else if negb (is_adjacent (User.region p) dest)
  then (Raise NonAdjacentException, sess)
  else if negb (bool_decide (Region.owner dest = User.team p))
  then (Raise (TeamException false), sess)
  else
    match open_order_of d, open_offensive_of d with
    | Some o, _ => (Raise (InProgressException (OtherMovementOrder o)), sess)
    | None, Some s => (Raise (InProgressException (OtherSkirmishAction s)), sess)
    | None, None =>
        if bool_decide (transit = 0) then
          (Ret None,
           with_pending
             (update_player (fun u => User.set_defectable false (set_region dest u)))
             sess)
        else
          let o := MovementOrder.mk (User.name p) dest amount now (now + transit) in
          (Ret (Some o),
           with_pending
             (fun d => add_order o (update_player (User.set_defectable false) d))
             sess)
    end.

(** Modelled from the spec: [root(node)] of section 4.4, which walks parent
    links to the top.  The walk is bounded by the size of the table. *)
Fixpoint root_of (fuel : nat) (table : list SkirmishAction.t)
    (s : SkirmishAction.t) : SkirmishAction.t :=
  match fuel with
  | O => s
  | S fuel' =>
      match SkirmishAction.parent s with
      | None => s
      | Some k =>
          match List.find (fun x => bool_decide (SkirmishAction.id x = k)) table with
          | Some up => root_of fuel' table up
          | None => s
          end
      end
  end.

Definition get_root (s : SkirmishAction.t) (sess : Session) : SkirmishAction.t :=
  let table := skirmishes (pending sess) in
  root_of (length table) table s.

(** The battle of a node is the battle of its root. *)
Definition get_battle (s : SkirmishAction.t) (sess : Session) : option Battle.t :=
  match SkirmishAction.battle (get_root s sess) with
  | Some k => List.find (fun b => bool_decide (Battle.id b = k)) (battles (pending sess))
  | None => None
  end.

(** The order the player is travelling under, if any *)
Definition is_moving (sess : Session) : option MovementOrder.t :=
  open_order_of (pending sess).

Definition team_of (d : DB) (who : string) : option Z :=
  if bool_decide (User.name (player d) = who) then Some (User.team (player d))
  else User.team <$> List.find (fun u => bool_decide (User.name u = who)) (users d).

(** The preconditions shared by both ways of creating a node *)
Definition check_commit (d : DB) (where_ : Region.t) (amount : Z) : option Exn :=
  let p := player d in
  if negb (bool_decide (Region.id (User.region p) = Region.id where_))
  then Some (NotPresentException (User.region p))
  else
    let available := User.loyalists p - User.committed_loyalists p in
    if bool_decide (amount <= 0) || bool_decide (available < amount)
    then Some (InsufficientException amount available)
    else None.

(** Modelled from the spec: [Battle.create_skirmish] of [db.py] ([createRoot]
    of section 4.4) - the player must be in the battle's region
    (NotPresentException carrying the actual region), the amount must be
    positive and within the uncommitted pool (InsufficientException), the
    battle must be active (TimingException "early" while scheduled) and not
    locked or resolved (TimingException "late"; the battle is locked from
    begins + duration - lockout on), and the player must not already have
    an unresolved root node in this battle (InProgressException).  On
    success the amount is reserved and the node appended. *)
Definition create_skirmish (now duration : Z) (battle : Battle.t) (amount : Z)
    (troop_type : string) (sess : Session) : Result SkirmishAction.t * Session :=
  let d := pending sess in
  match check_commit d (Battle.region battle) amount with
  | Some e => (Raise e, sess)
  | None =>
      if bool_decide (now < Battle.begins battle)
      then (Raise (TimingException "early"), sess)
      else if Battle.resolved battle
              || bool_decide
                   (Battle.begins battle + duration - Battle.lockout battle <= now)
      then (Raise (TimingException "late"), sess)
      else
        match
          List.find
            (fun s =>
               bool_decide (SkirmishAction.participant s = User.name (player d))
               && bool_decide (SkirmishAction.parent s = None)
               && bool_decide (SkirmishAction.battle s = Some (Battle.id battle)))
            (skirmishes d)
        with
        | Some mine => (Raise (InProgressException (OtherSkirmishAction mine)), sess)
        | None =>
            let s :=
              SkirmishAction.mk (fresh (SkirmishAction.id <$> skirmishes d)) None
                (Some (Battle.id battle)) (User.name (player d)) amount troop_type
                true None in
            (Ret s,
             with_pending (fun d => add_skirmish s (update_player (reserve amount) d))
               sess)
        end
  end.

(** Modelled from the spec: [SkirmishAction.react] of [db.py], section 4.4 -
    the shared preconditions in the region of the node's battle, then
    TeamException(friendly=true) when hindering a player of the own team
    and TeamException(friendly=false) when supporting a player of another
    team.  On success the amount is reserved and the child appended. *)
Definition react (parent : SkirmishAction.t) (amount : Z) (hinder : bool)
    (troop_type : string) (sess : Session) : Result SkirmishAction.t * Session :=
  let d := pending sess in
  match get_battle parent sess with
  | None => (Raise (AttributeError "region"), sess)
  | Some battle =>
      match check_commit d (Battle.region battle) amount with
      | Some e => (Raise e, sess)
      | None =>
          let same :=
            bool_decide
              (team_of d (SkirmishAction.participant parent)
               = Some (User.team (player d))) in
          if hinder && same then (Raise (TeamException true), sess)
          else if negb hinder && negb same then (Raise (TeamException false), sess)
          else
            let s :=
              SkirmishAction.mk (fresh (SkirmishAction.id <$> skirmishes d))
                (Some (SkirmishAction.id parent)) None (User.name (player d))
                amount troop_type hinder None in
            (Ret s,
             with_pending (fun d => add_skirmish s (update_player (reserve amount) d))
               sess)
      end
  end.
End SpecEngine.

(** ** The remaining commands

    [DefectCommand], [PromoteCommand] and [StatusCommand].  What they call in
    [db.py] and [utils.py] is passed to them: [player.defect], [team_to_num],
    the [battle] of a region and the renderings that [Engine] does not
    have.  The trace has no entry for [player.defect]. *)

(** [l[i]]: a negative index counts from the end; [None] is an
    [IndexError]. *)
Definition py_index {A} (l : list A) (i : Z) : option A :=
  if bool_decide (0 <= i) then l !! Z.to_nat i
  else if bool_decide (- Z.of_nat (length l) <= i)
       then l !! Z.to_nat (Z.of_nat (length l) + i)
       else None.

(** ["\n".join(lines)] and the like *)
Fixpoint join (sep : string) (lines : list string) : string :=
  match lines with
  | [] => EmptyString
  | [line] => line
  | line :: rest => line +:+ sep +:+ join sep rest
  end.

(** The [IndexError] of a list subscript, which none of the exceptions above
    stands for. *)
Inductive IndexError := list_index_out_of_range.

Definition set_leader (v : bool) (u : User.t) : User.t :=
  User.mk (User.name u) (User.team u) (User.rank u) v (User.region u)
    (User.loyalists u) (User.committed_loyalists u) (User.defectable u).

(** [session.query(User)]: the row of the acting player and the other rows *)
Definition all_users (d : DB) : list User.t := player d :: users d.

(** Attribute assignment on the first row of this name, as
    [query(User).filter_by(name=...).first()] returns it: the row of the
    acting player is the same object as [context.player]. *)
Fixpoint update_first (name : string) (f : User.t -> User.t) (l : list User.t)
    : list User.t :=
  match l with
  | [] => []
  | u :: l' =>
      if bool_decide (User.name u = name) then f u :: l'
      else u :: update_first name f l'
  end.

Definition update_user (name : string) (f : User.t -> User.t) (d : DB) : DB :=
  if bool_decide (User.name (player d) = name) then update_player f d
  else
    {| player := player d; users := update_first name f (users d);
       regions := regions d; battles := battles d; skirmishes := skirmishes d;
       orders := orders d; processed := processed d |}.

(** *** [DefectCommand] *)

Module DefectCommand.
Record t := mk { team : option Z }.

(** [team_to_num] may return anything, also None. *)
Definition init (team_to_num : string -> Result (option Z))
    (tokens : gmap string string) : Result t :=
  match tokens !! "team" with
  | Some name =>
      match team_to_num name with
      | Ret team => Ret (mk team)
      | Raise e => Raise e
      end
  | None => Ret (mk None)
  end.

(** [self.team] after the first statement of [execute]:
    [[0, 1][context.player.team - 1]] when no team was given. *)
Definition target (self : t) (p : User.t) : option Z :=
  match team self with
  | Some team => Some team
  | None => py_index [0; 1] (User.team p - 1)
  end.

Definition execute (defect : Z -> Session -> Result unit * Session)
    (E : Engine) (W : World) (self : t) (st : HState)
    : IndexError + Result unit * HState :=
  match target self (player (pending (session st))) with
  | None => inl list_index_out_of_range
  | Some team =>
      inr
        (try_except
           ((fun st =>
               let '(r, s) := defect team (session st) in
               (r, {| session := s; trace := trace st |})) ;;
            p <- get_player ;;
            Context_reply W
              ("Done - you are now on team " +:+ num_to_team E (User.team p) +:+
               " and encamped" +:+ " in their capital of " +:+
               region_markdown E (User.region p)) ;;
            ret tt)
           (fun e =>
              match e with
              | TeamException _ =>
                  Some (Context_reply W
                          ("You're trying to defect to the team you're " +:+
                           "already on!") ;;
                        ret tt)
              | TimingException _ =>
                  Some (Context_reply W
                          ("You can only defect if you haven't taken " +:+
                           "any actions.") ;;
                        ret tt)
              | _ => None
              end)
           st)
  end.
End DefectCommand.

(** *** [PromoteCommand] *)

Module PromoteCommand.
Record t := mk { who : string; direction : Z; direction_str : string }.

Definition init (tokens : gmap string string) : Result t :=
  match tokens !! "who" with
  | None => Raise (KeyError "who")
  | Some who =>
      match tokens !! "direction" with
      | None => Raise (KeyError "direction")
      | Some d => Ret (mk who (if bool_decide (d = "promote") then 1 else 0) d)
      end
  end.

(** [person.leader = self.direction]: the flag holds what the number counts
    as. *)
Definition execute (W : World) (self : t) : M unit :=
  person <- query_first all_users (fun u => bool_decide (User.name u = who self)) ;;
  match person with
  | Some person =>
      p <- get_player ;;
      if User.leader p then
        modify_session
          (with_pending
             (update_user (User.name person)
                (set_leader (bool_decide (direction self <> 0))))) ;;
        Context_reply W (who self +:+ " has been " +:+ direction_str self +:+ "d!") ;;
        commit
      else
        Context_reply W
          ("You can't promote if you aren't a leader " +:+ "yourself!") ;;
        ret tt
  | None => Context_reply W ("I don't know who " +:+ who self +:+ " is") ;; ret tt
  end.
End PromoteCommand.

(** *** [StatusCommand] *)

Module StatusCommand.
(** What [db.py] shows of a region and a rank: [region.battle],
    [battle.markdown()] and [str(rank)]. *)
Record Views := {
  region_battle : Region.t -> Session -> option Battle.t;
  battle_line : Battle.t -> string;
  rank_str : Z -> string
}.

Definition land (E : Engine) (V : Views) (sess : Session) (region : Region.t)
    : string :=
  let dispute :=
    match region_battle V region sess with
    | Some battle => " ( " +:+ battle_line V battle +:+ " )"
    | None => EmptyString
    end in
  "* **" +:+ region_markdown E region +:+ "**:  " +:+
  num_to_team E (Region.owner region) +:+ dispute.

Definition lands_status (E : Engine) (V : Views) (sess : Session) : string :=
  let lands := join NL (land E V sess <$> regions (pending sess)) in
  "State of Chroma:" +:+ NL +:+ NL +:+ lands.

Definition status_for (E : Engine) (V : Views) (sess : Session) : string :=
  let found := player (pending sess) in
  let forces :=
    match is_moving E sess with
    | Some moving =>
        "Your forces are currently on the march to " +:+
        region_markdown E (MovementOrder.dest moving) +:+
        " and will arrive at " +:+ arrival_str E moving
    | None =>
        "You are currently encamped at " +:+ region_markdown E (User.region found)
    end in
  let commit_str :=
    if bool_decide (User.committed_loyalists found <> 0) then
      ", " +:+ fmt_d (User.committed_loyalists found) +:+
      " of which are committed to battle"
    else EmptyString in
  let personal :=
    "You are a " +:+ rank_str V (User.rank found) +:+ " in the " +:+
    num_to_team E (User.team found) +:+ " army." +:+ NL +:+ NL +:+
    "Your forces number " +:+ fmt_d (User.loyalists found) +:+ " loyalists" +:+
    commit_str +:+ "." +:+ NL +:+ NL +:+ forces in
  personal +:+ NL +:+ NL +:+ lands_status E V sess.

Definition execute (E : Engine) (V : Views) (W : World) : M unit :=
  sess <- get_session ;;
  Context_reply W (status_for E V sess) ;;
  ret tt.
End StatusCommand.

(** ** Vocabulary of the statements *)

(** The state after further effects that leave the session alone. *)
Definition extend (st : HState) (evs : list Event) : HState :=
  {| session := session st; trace := trace st ++ evs |}.

(** The region a command names: by name first, then by subreddit. *)
Definition lookup_region (d : DB) (where_ : string) : option Region.t :=
  match List.find (fun r => bool_decide (Region.name r = where_)) (regions d) with
  | Some r => Some r
  | None => List.find (fun r => bool_decide (Region.srname r = where_)) (regions d)
  end.

(** Remote API errors and socket timeouts *)
Definition infrastructure (e : Exn) : bool :=
  match e with
  | APIException | Timeout => true
  | _ => false
  end.

Definition is_warning (ev : Event) : bool :=
  match ev with
  | EvWarning _ => true
  | _ => false
  end.

(** Replies and log lines: effects that change no row. *)
Definition is_notice (ev : Event) : bool :=
  match ev with
  | EvReply _ | EvWarning _ => true
  | _ => false
  end.

(** The typed failures of a move *)
Definition typed_move_failure (e : Exn) : bool :=
  match e with
  | InsufficientException _ _ | NonAdjacentException
  | InProgressException _ | TeamException _ => true
  | _ => false
  end.

(** The state in which the handler goes on after a call into the engine. *)
Definition after_call (st : HState) (ev : Event) (s : Session) : HState :=
  {| session := s; trace := trace st ++ [ev] |}.

(** A remote call that brings no confirmation: it answers nothing, or it
    fails in the infrastructure. *)
Definition unconfirmed {A} (r : Result (option A)) : Prop :=
  match r with
  | Ret None => True
  | Ret (Some _) => False
  | Raise e => infrastructure e = true
  end.

(** A remote call that does not raise past [failable]. *)
Definition soft {A} (r : Result (option A)) : Prop :=
  match r with
  | Ret _ => True
  | Raise e => infrastructure e = true
  end.

(** Battles without the id of their announcement thread *)
Definition unannounced (d : DB) : list Battle.t :=
  List.filter (fun b => bool_decide (Battle.submission_id b = None)) (battles d).

(** A program that only adds to the trace. *)
Definition grows {A} (m : M A) : Prop :=
  forall st r st', m st = (r, st') -> exists evs, trace st' = trace st ++ evs.

(** How many ProcessedMarkers name this message *)
Definition markers_for (pid : string) (d : DB) : nat :=
  length (List.filter (fun p => bool_decide (Processed.id36 p = pid)) (processed d)).

(** The skirmish id that the text of a message yields: the subskirmish
    marker first, then the skirmish marker. *)
Definition marker_id (body : string) : option Z :=
  match re_search subskirmish_re body with
  | Some g => py_int g
  | None =>
      match re_search skirmish_re body with
      | Some g => py_int g
      | None => None
      end
  end.

(** The row with this primary key *)
Definition skirmish_with_id (d : DB) (k : Z) : option SkirmishAction.t :=
  List.find (fun s => bool_decide (SkirmishAction.id s = k)) (skirmishes d).

(** The session after [session.add(Processed(...))] and [commit()] *)
Definition mark_processed (p : Processed.t) (s : Session) : Session :=
  session_commit (with_pending (add_processed p) s).

(** The character does not occur in the text. *)
Definition lacks (c : ascii) (s : string) : Prop := c ∉ chars s.

(** A text at whose start a run of digits ends. *)
Definition stops_digits (rest : list ascii) : Prop :=
  match rest with [] => True | c :: _ => is_digit c = false end.

(** ** Scenarios

    The scenario of the specification: region R1 (team 0) next to R2 (team 1)
    and to R3 (team 0); alice, a leader of team 0 with 100 loyalists, camps in
    R1; the battle delay is 600 seconds.  How rows and times are rendered is
    not specified; the renderings below are plain ones. *)

Module Scenario.
Definition t0 : Z := 1400000000.

Definition R1 : Region.t := Region.mk 1 "oraistedarg" "ct_oraistedarg" 0 [2; 3].
Definition R2 : Region.t := Region.mk 2 "periopolis" "ct_periopolis" 1 [1].
Definition R3 : Region.t := Region.mk 3 "sapphire" "ct_sapphire" 0 [1].

Definition alice : User.t := User.mk "alice" 0 1 true R1 100 0 true.
Definition bob : User.t := User.mk "bob" 1 1 false R2 80 20 false.

Definition db0 : DB :=
  {| player := alice; users := [bob]; regions := [R1; R2; R3]; battles := [];
     skirmishes := []; orders := []; processed := [] |}.

Definition fresh_session (d : DB) : Session := {| pending := d; committed := d |}.

Definition st0 : HState := {| session := fresh_session db0; trace := [] |}.

(** alice is already on her way to R3. *)
Definition marching : MovementOrder.t := MovementOrder.mk "alice" R3 50 t0 (t0 + 60).

Definition st_marching : HState :=
  {| session :=
       fresh_session
         {| player := alice; users := [bob]; regions := [R1; R2; R3]; battles := [];
            skirmishes := []; orders := [marching]; processed := [] |};
     trace := [] |}.

(** The battle for R2 has begun; alice has arrived there.  bob leads
    skirmish 1, alice has attacked it with skirmish 2. *)
Definition B1 : Battle.t := Battle.mk 1 R2 (t0 + 600) 0 (Some "t3_battle") false.

Definition S1 : SkirmishAction.t :=
  SkirmishAction.mk 1 None (Some 1) "bob" 20 "infantry" true (Some "t1_root").

Definition S2 : SkirmishAction.t :=
  SkirmishAction.mk 2 (Some 1) None "alice" 30 "cavalry" true (Some "t1_child").

Definition alice_at_war : User.t := User.mk "alice" 0 1 true R2 100 30 false.

Definition fresh_st (d : DB) : HState := {| session := fresh_session d; trace := [] |}.

Definition db1 : DB :=
  {| player := alice_at_war; users := [bob]; regions := [R1; R2; R3];
     battles := [B1]; skirmishes := [S1; S2]; orders := []; processed := [] |}.

Definition st1 : HState := fresh_st db1.

Definition team_name (n : Z) : string :=
  if bool_decide (n = 0) then "Orangered" else "Periwinkle".

Definition engine (now : Z) : Engine :=
  {| invade := SpecEngine.invade User.leader;
     move := SpecEngine.move now;
     create_skirmish := SpecEngine.create_skirmish now 3600;
     react := SpecEngine.react;
     is_moving := SpecEngine.is_moving;
     get_root := SpecEngine.get_root;
     get_battle := SpecEngine.get_battle;
     region_markdown := fun r => "[" +:+ Region.name r +:+ "](/r/" +:+ Region.srname r +:+ ")";
     battle_markdown := fun b how => how;
     begins_str := fun b => fmt_d (Battle.begins b);
     arrival_str := fun o => fmt_d (MovementOrder.arrival o);
     num_to_team := team_name |}.

Definition chromabot : string := "chromabot".

Definition posted : Thing.t := Thing.mk "t1_posted" (Some chromabot) EmptyString.

(** The reply of the engine that confirmed skirmish 2, and a remark of a
    bystander. *)
Definition bot_reply : Thing.t :=
  Thing.mk "t1_botreply" (Some chromabot)
    (SkirmishCommand.confirmation_for (engine (t0 + 700)) S2 (fresh_session db1)).

Definition chatter : Thing.t := Thing.mk "t1_chatter" (Some "carol") "Good luck!".

Definition get_info (thing_id : string) : Result (option Thing.t) :=
  if bool_decide (thing_id = "t1_botreply") then Ret (Some bot_reply)
  else if bool_decide (thing_id = "t1_chatter") then Ret (Some chatter)
  else Ret None.

(** A world in which replies are delivered and threads are submitted as
    [submit] says. *)
Definition world (submit : Result (option Thing.t)) : World :=
  {| comment_reply := fun _ _ => Ret (Some posted);
     reddit_submit := fun _ _ _ _ => submit;
     reddit_get_info := fun _ thing_id => get_info thing_id;
     clock := fun _ => t0 |}.

Definition thread : Thing.t := Thing.mk "t3_battle" (Some chromabot) EmptyString.

(** A world in which every reply times out. *)
Definition world_deaf : World :=
  {| comment_reply := fun _ _ => Raise Timeout;
     reddit_submit := fun _ _ _ _ => Raise APIException;
     reddit_get_info := fun _ thing_id => get_info thing_id;
     clock := fun _ => t0 |}.

Definition game_config (lockout : option Z) : gmap string Z :=
  let base : gmap string Z := {[ "battle_delay" := 600; "speed" := 60 ]} in
  match lockout with
  | Some v => <[ "battle_lockout" := v ]> base
  | None => base
  end.

Definition config_with (lockout : option Z) : Config :=
  {| game := game_config lockout; username := chromabot |}.

(** A command sent as a private message *)
Definition by_pm (lockout : option Z) : Context :=
  {| config := config_with lockout;
     comment := Comment.mk "t4_command" EmptyString EmptyString (Some "alice") (Some false) |}.

(** A command sent as a comment in the thread of the battle, in reply to the
    message [parent_id] *)
Definition in_reply_to (parent_id : string) : Context :=
  {| config := config_with None;
     comment := Comment.mk "t1_command" "t3_battle" parent_id (Some "alice") None |}.

Definition invade_R2 : InvadeCommand.t := InvadeCommand.mk "periopolis".
Definition move_R3 : MoveCommand.t := MoveCommand.mk (-1) "sapphire".
Definition attack_10 : SkirmishCommand.t := SkirmishCommand.mk "attack" 10 "infantry".
End Scenario.

(** ** The claim on re-submission, as it is stated

    Two attempts in a row for the same parent message and battle (by the
    comments of [c1] and [c2]): at most one marker is written for the parent,
    and the second attempt fails closed without a remote fetch. *)
Definition resubmission_short_circuits (W : World) (c1 c2 : Context)
    (battle : Battle.t) (st : HState) : Prop :=
  let pid := Comment.parent_id (comment c1) in
  let st1 := (SkirmishCommand.extract_subskirmish W c1 battle st).2 in
  let run2 := SkirmishCommand.extract_subskirmish W c2 battle st1 in
  (markers_for pid (pending (session run2.2))
   <= markers_for pid (pending (session st)) + 1)%nat /\
  run2.1 = Ret None /\
  trace run2.2 = trace st1.

(** ** Further vocabulary *)

(** A world in which no reply raises past [failable]. *)
Definition replies_softly (W : World) : Prop :=
  forall tr reply, soft (comment_reply W tr reply).

(** Calls into the engine, commits and rollbacks *)
Definition is_engine_call (ev : Event) : bool :=
  match ev with
  | EvInvade _ _ | EvMove _ _ _ | EvCreateSkirmish _ _ _ | EvReact _ _ _ _ => true
  | _ => false
  end.

Definition is_transaction (ev : Event) : bool :=
  match ev with
  | EvCommit | EvRollback => true
  | _ => false
  end.

(** The exceptions that [InvadeCommand.execute] answers *)
Definition typed_invade_failure (e : Exn) : bool :=
  match e with
  | RankException | TeamException _ | NonAdjacentException
  | InProgressException _ => true
  | _ => false
  end.

(** The exceptions that [SkirmishCommand.execute] answers *)
Definition typed_skirmish_failure (e : Exn) : bool :=
  match e with
  | NotPresentException _ | TeamException _ | InProgressException _
  | InsufficientException _ _ | TimingException _ => true
  | _ => false
  end.

(** The battle a comment was posted under *)
Definition battle_of_thread (d : DB) (post_id : string) : option Battle.t :=
  List.find (fun b => bool_decide (Battle.submission_id b = Some post_id)) (battles d).

(** The tracked skirmish a comment replies to *)
Definition skirmish_named (d : DB) (name : string) : option SkirmishAction.t :=
  List.find (fun s => bool_decide (SkirmishAction.comment_id s = Some name))
    (skirmishes d).

(** The user of this name *)
Definition user_named (d : DB) (name : string) : option User.t :=
  List.find (fun u => bool_decide (User.name u = name)) (all_users d).

(** A program all of whose effects on the trace satisfy [P] *)
Definition emits {A} (P : Event -> Prop) (m : M A) : Prop :=
  forall st r st', m st = (r, st') ->
    exists evs, trace st' = trace st ++ evs /\ Forall P evs.


(** The [except] clauses of [SkirmishCommand.execute], as they stand there *)
Definition skirmish_clauses (E : Engine) (W : World) (current : Battle.t) (e : Exn)
    : option (M unit) :=
  match e with
  | NotPresentException actually_am =>
      Some (let standard :=
              "Your armies are currently in " +:+
              region_markdown E actually_am +:+
              " and thus cannot " +:+
              "participate in this battle." in
            sess <- get_session ;;
            let marching :=
              match is_moving E sess with
              | Some moving =>
                  NL +:+ NL +:+ "(Your forces will arrive in " +:+
                  region_markdown E (MovementOrder.dest moving) +:+
                  " at " +:+ arrival_str E moving +:+ " )"
              | None => EmptyString
              end in
            Context_reply W (standard +:+ marching) ;;
            ret tt)
  | TeamException friendly =>
      Some (if friendly
            then Context_reply W "You cannot attack someone on your team" ;;
                 ret tt
            else Context_reply W "You cannot aid the enemy!" ;; ret tt)
  | InProgressException _ =>
      Some (Context_reply W
              ("You can only spearhead one offensive per battle " +:+
               "(though you may still assist others)") ;;
            ret tt)
  | InsufficientException requested _ =>
      Some (if bool_decide (requested <= 0) then
              Context_reply W "You must use at least 1 troop!" ;; ret tt
            else
              p <- get_player ;;
              Context_reply W
                ("You don't have " +:+ fmt_d requested +:+
                 " troops to spare! " +:+
                 "(you have committed " +:+
                 fmt_d (User.committed_loyalists p) +:+ " total)") ;;
              ret tt)
  | TimingException side =>
      Some (if bool_decide (side = "late") then
              Context_reply W
                ("Top-level attacks are disallowed in the last " +:+
                 fmt_d (Battle.lockout current) +:+
                 " seconds of a battle") ;;
              ret tt
            else Context_reply W "The battle has not yet begun!" ;; ret tt)
  | _ => None
  end.

(** The session after a skirmish was linked to its comment and committed *)
Definition link_skirmish (skirmish : SkirmishAction.t) (name : string) (s : Session)
    : Session :=
  session_commit
    (with_pending
       (update_skirmish (SkirmishAction.id skirmish)
          (SkirmishAction.set_comment_id name)) s).

(** ** The claim on reconciliation, as it is stated

    For a parent message that was fetched: if its author is not the engine's
    own identity, a ProcessedMarker for the message is recorded against the
    battle and the reconciliation fails; otherwise the skirmish id is the one
    the markers in the text yield. *)
Definition reconciles_as_stated (W : World) (context : Context) (battle : Battle.t)
    (st : HState) (parent : Thing.t) : Prop :=
  let run := SkirmishCommand.extract_subskirmish W context battle st in
  if bool_decide (Thing.author parent = Some (username (config context))) then
    run.1 = Ret (marker_id (Thing.body parent))
  else
    run.1 = Ret None /\
    Processed.mk (Thing.name parent) (Battle.id battle)
    ∈ processed (pending (session run.2)).

(** ** Further fixtures *)

Module Fixture.
(** carol, of team 0 like alice, is no leader. *)
Definition carol : User.t := User.mk "carol" 0 0 false Scenario.R1 40 0 true.

Definition db_court : DB :=
  {| player := Scenario.alice; users := [Scenario.bob; carol];
     regions := [Scenario.R1; Scenario.R2; Scenario.R3]; battles := [];
     skirmishes := []; orders := []; processed := [] |}.

Definition st_court : HState := Scenario.fresh_st db_court.

(** The same court seen by carol *)
Definition st_carol : HState :=
  Scenario.fresh_st
    {| player := carol; users := [Scenario.alice; Scenario.bob];
       regions := [Scenario.R1; Scenario.R2; Scenario.R3]; battles := [];
       skirmishes := []; orders := []; processed := [] |}.

(** The court seen by bob, who has troops in a battle *)
Definition st_bob : HState :=
  Scenario.fresh_st
    {| player := Scenario.bob; users := [Scenario.alice; carol];
       regions := [Scenario.R1; Scenario.R2; Scenario.R3]; battles := [];
       skirmishes := []; orders := []; processed := [] |}.

(** A [player.defect] that follows section 4.5 of the specification: the team
    must change, the player must not have acted yet; the player then joins
    the team, in the capital [capital] names. *)
Definition defect (capital : Z -> Region.t) (team : Z) (sess : Session)
    : Result unit * Session :=
  let p := player (pending sess) in
  if bool_decide (User.team p = team) then (Raise (TeamException true), sess)
  else if negb (User.defectable p) then (Raise (TimingException "late"), sess)
  else
    (Ret tt,
     session_commit
       (with_pending
          (update_player
             (fun u =>
                User.mk (User.name u) team (User.rank u) (User.leader u) (capital team)
                  (User.loyalists u) (User.committed_loyalists u) (User.defectable u)))
          sess)).

Definition capital (team : Z) : Region.t :=
  if bool_decide (team = 0) then Scenario.R1 else Scenario.R2.

Definition team_to_num (name : string) : Result (option Z) :=
  if bool_decide (lower name = "orangered") then Ret (Some 0)
  else if bool_decide (lower name = "periwinkle") then Ret (Some 1)
  else Ret None.

Definition views : StatusCommand.Views :=
  {| StatusCommand.region_battle :=
       fun r sess => SpecEngine.unresolved_battle_of (pending sess) r;
     StatusCommand.battle_line := fun b => fmt_d (Battle.begins b);
     StatusCommand.rank_str := fun n => if bool_decide (n = 0) then "private" else "general" |}.

(** A world in which every call fails in an unexpected way *)
Definition world_broken : World :=
  {| comment_reply := fun _ _ => Raise ValueError;
     reddit_submit := fun _ _ _ _ => Raise ValueError;
     reddit_get_info := fun _ _ => Raise Timeout;
     clock := fun _ => Scenario.t0 |}.

(** A message whose author was deleted, and a world that serves it *)
Definition deleted : Thing.t := Thing.mk "t1_deleted" None "[deleted]".

Definition world_deleted : World :=
  {| comment_reply := fun _ _ => Ret (Some Scenario.posted);
     reddit_submit := fun _ _ _ _ => Ret None;
     reddit_get_info :=
       fun _ thing_id =>
         if bool_decide (thing_id = "t1_deleted") then Ret (Some deleted)
         else Scenario.get_info thing_id;
     clock := fun _ => Scenario.t0 |}.

(** The thread was submitted and confirmed. *)
Definition world_fine : World := Scenario.world (Ret (Some Scenario.thread)).

(** An engine that refuses every invasion for lack of rank *)
Definition engine_no_rank : Engine :=
  {| invade := SpecEngine.invade (fun _ => false);
     move := SpecEngine.move Scenario.t0;
     create_skirmish := SpecEngine.create_skirmish Scenario.t0 3600;
     react := SpecEngine.react;
     is_moving := SpecEngine.is_moving;
     get_root := SpecEngine.get_root;
     get_battle := SpecEngine.get_battle;
     region_markdown := region_markdown (Scenario.engine Scenario.t0);
     battle_markdown := fun b how => how;
     begins_str := fun b => fmt_d (Battle.begins b);
     arrival_str := fun o => fmt_d (MovementOrder.arrival o);
     num_to_team := Scenario.team_name |}.
(** An engine whose [move] raises an exception that [MoveCommand] has no
    clause for *)
Definition engine_odd : Engine :=
  {| invade := SpecEngine.invade User.leader;
     move := fun _ _ _ sess => (Raise RankException, sess);
     create_skirmish := SpecEngine.create_skirmish Scenario.t0 3600;
     react := SpecEngine.react;
     is_moving := SpecEngine.is_moving;
     get_root := SpecEngine.get_root;
     get_battle := SpecEngine.get_battle;
     region_markdown := region_markdown (Scenario.engine Scenario.t0);
     battle_markdown := fun b how => how;
     begins_str := fun b => fmt_d (Battle.begins b);
     arrival_str := fun o => fmt_d (MovementOrder.arrival o);
     num_to_team := Scenario.team_name |}.
End Fixture.

(** * Results *)

(** ** Text and decimal numbers *)

Example fmt_d_negative : fmt_d (-35) = "-35".
Proof. reflexivity. Qed.

Example py_int_leading_zeros : py_int "007" = Some 7.
Proof. reflexivity. Qed.

Example py_int_empty : py_int EmptyString = None.
Proof. reflexivity. Qed.

Example py_int_word : py_int "12a" = None.
Proof. reflexivity. Qed.

Example py_int_plus : py_int "+5" = Some 5.
Proof. reflexivity. Qed.

Example py_int_spaces : py_int " 7 " = Some 7.
Proof. reflexivity. Qed.

Example py_int_minus_spaces : py_int (" -12" +:+ NL) = Some (-12).
Proof. reflexivity. Qed.

Example py_int_signs : py_int "+-5" = None /\ py_int "+" = None /\ py_int "  " = None.
Proof. by repeat split. Qed.

Example lower_mixed : lower "PeriOpolis_9" = "periopolis_9".
Proof. reflexivity. Qed.

Section Text.
Implicit Types (s t : string) (l : list ascii) (z : Z).

Lemma chars_app s t : chars (s +:+ t) = chars s ++ chars t.
Proof.
  unfold chars. induction s as [|c s IH]; [reflexivity|].
  change (String c s +:+ t) with (String c (s +:+ t)).
  cbn [String.list_ascii_of_string]. by rewrite IH.
Qed.

Lemma text_chars s : text (chars s) = s.
Proof. apply String.string_of_list_ascii_of_string. Qed.

Lemma uint_digits (d : Decimal.uint) :
  Forall (fun c => is_digit c = true) (chars (NilEmpty.string_of_uint d)).
Proof. induction d; cbn; constructor; done. Qed.

Lemma uint_nonempty (d : Decimal.uint) :
  d <> Decimal.Nil -> chars (NilEmpty.string_of_uint d) <> [].
Proof. by destruct d. Qed.

(** A number that is not negative is printed as a non-empty run of digits. *)
Lemma fmt_d_digits z :
  0 <= z -> Forall (fun c => is_digit c = true) (chars (fmt_d z)) /\ chars (fmt_d z) <> [].
Proof.
  intros Hz. unfold fmt_d. destruct z as [|p|p]; [by repeat constructor| |lia].
  cbn [Z.to_int NilZero.string_of_int]. unfold NilZero.string_of_uint.
  pose proof (DecimalPos.Unsigned.to_uint_nonnil p) as Hnil.
  destruct (Pos.to_uint p) eqn:E; [done|..];
    (split; [apply uint_digits | by apply uint_nonempty]).
Qed.

(** Every printed number consists of digits and at most a minus sign. *)
Lemma fmt_d_chars z c :
  c ∈ chars (fmt_d z) -> is_digit c = true \/ c = "-"%char.
Proof.
  unfold fmt_d. intros Hc.
  assert (Hu : forall d, c ∈ chars (NilZero.string_of_uint d) -> is_digit c = true).
{ intros d Hd.
  assert (Hall : Forall (fun c => is_digit c = true) (chars (NilZero.string_of_uint d)))
    by (destruct d; [by repeat constructor | apply uint_digits ..]).
  rewrite Forall_forall in Hall. by apply Hall. }
destruct (Z.to_int z) as [d|d]; cbn [NilZero.string_of_int] in Hc.
  - left. by apply (Hu d).
  - change (chars (String "-" (NilZero.string_of_uint d)))
      with ("-"%char :: chars (NilZero.string_of_uint d)) in Hc.
    apply elem_of_cons in Hc as [->|Hc]; [by right | left; by apply (Hu d)].
Qed.

Lemma fmt_d_lacks z c :
  is_digit c = false -> c <> "-"%char -> c ∉ chars (fmt_d z).
Proof. intros Hd Hm Hc. apply fmt_d_chars in Hc as [?|?]; congruence. Qed.

Lemma chars_text l : chars (text l) = l.
Proof. apply String.list_ascii_of_string_of_list_ascii. Qed.

Lemma lstrip_id l : Forall (fun c => is_space c = false) l -> lstrip l = l.
Proof. destruct 1 as [|c l Hc _]; [done|]. cbn. by rewrite Hc. Qed.

(** A text without white space is its own [strip]. *)
Lemma strip_id l : Forall (fun c => is_space c = false) l -> strip l = l.
Proof.
  intros Hl. unfold strip. rewrite (lstrip_id l Hl).
  rewrite (lstrip_id (rev l)) by (by apply List.Forall_rev).
  apply rev_involutive.
Qed.

Lemma digit_no_space c : is_digit c = true \/ c = "-"%char -> is_space c = false.
Proof.
  intros [Hc | ->]; [|done].
  destruct c as [[] [] [] [] [] [] [] []]; try discriminate Hc; done.
Qed.

(** On digits and minus signs [int] reads a plain decimal number. *)
Lemma py_int_plain s :
  s <> EmptyString ->
  Forall (fun c => is_digit c = true \/ c = "-"%char) (chars s) ->
  py_int s = py_decimal s.
Proof.
  intros Hne Hs. unfold py_int. rewrite strip_id.
  - destruct s as [|c s]; [done|].
    change (chars (String c s)) with (c :: chars s) in *. cbv beta iota.
    assert ((c =? "+")%char = false) as ->.
    { apply Ascii.eqb_neq. intros ->. by inversion Hs as [|? ? [?|?]]. }
    change (text (c :: chars s)) with (String c (text (chars s))).
    by rewrite text_chars.
  - eapply Forall_impl; [exact Hs|]. apply digit_no_space.
Qed.

(** [int("%d" % z) == z] *)
Lemma py_int_fmt_d z : py_int (fmt_d z) = Some z.
Proof.
  rewrite py_int_plain.
  2: { unfold fmt_d. destruct z as [|p|p]; [done| |done].
       cbn [Z.to_int NilZero.string_of_int]. unfold NilZero.string_of_uint.
       pose proof (DecimalPos.Unsigned.to_uint_nonnil p) as Hnil.
       by destruct (Pos.to_uint p). }
  2: { apply Forall_forall. intros c Hc. by apply (fmt_d_chars z). }
  unfold py_decimal, fmt_d. rewrite NilZero.isi.
  - cbn. by rewrite DecimalZ.of_to.
  - destruct z; cbn; [done| |done].
    intros [=H]. by apply DecimalPos.Unsigned.to_uint_nonnil in H.
  - destruct z; cbn; [done|done|].
    intros [=H]. by apply DecimalPos.Unsigned.to_uint_nonnil in H.
Qed.
End Text.

(** ** Searching *)

Example search_subskirmish :
  re_search subskirmish_re "to **Skirmish #4** (subskirmish 12)." = Some "12".
Proof. reflexivity. Qed.

Example search_skirmish_leftmost :
  re_search skirmish_re "Skirmish #x, **Skirmish #4** and Skirmish #5*" = Some "4".
Proof. reflexivity. Qed.

Example search_needs_the_bold_markup : re_search skirmish_re "Skirmish #4." = None.
Proof. reflexivity. Qed.

Example search_backtracks :
  search_from {| re_before := "#"; re_after := "1" |} (chars "#2011") = Some (chars "201").
Proof. reflexivity. Qed.

Example init_aliases :
  SkirmishCommand.init
    (list_to_map [("action", "oppose"); ("amount", "10"); ("troop_type", "calvary")])
  = Ret (SkirmishCommand.mk "attack" 10 "cavalry").
Proof. reflexivity. Qed.

Section Regex.
Implicit Types (re : Regex) (s pre rest ds : list ascii) (c : ascii).

Lemma strip_prefix_app p s : strip_prefix p (p ++ s) = Some s.
Proof. induction p as [|a p IH]; [done|]. cbn. by rewrite bool_decide_eq_true_2. Qed.

Lemma strip_prefix_head c p s :
  c ∉ s -> strip_prefix (c :: p) s = None \/ s = [] .
Proof.
  destruct s as [|b s]; [by right|]. intros Hc. left. cbn.
  rewrite bool_decide_eq_false_2; [done|]. intros ->. apply Hc. by left.
Qed.

Lemma span_digits_run ds rest :
  Forall (fun c => is_digit c = true) ds -> stops_digits rest ->
  span_digits (ds ++ rest) = (ds, rest).
Proof.
  intros Hds Hrest. induction Hds as [|c ds Hc _ IH]; cbn.
  - destruct rest as [|c rest]; [done|]. cbn in *. by rewrite Hrest.
  - by rewrite Hc, IH.
Qed.

Lemma span_digits_spec s ds rest :
  span_digits s = (ds, rest) -> Forall (fun c => is_digit c = true) ds.
Proof.
  revert ds rest. induction s as [|c s IH]; intros ds rest; cbn.
  - by intros [= <- <-].
  - destruct (is_digit c) eqn:Hc; [|by intros [= <- <-]].
    destruct (span_digits s) as [ds' rest']. intros [= <- <-].
    constructor; [done|]. by eapply IH.
Qed.

Lemma backtrack_spec k ds rest after g :
  backtrack k ds rest after = Some g ->
  exists j, (0 < j <= k)%nat /\ g = take j ds.
Proof.
  induction k as [|k IH]; [done|]. cbn [backtrack].
  destruct (strip_prefix after _).
  - intros [= <-]. exists (S k). split; [lia|done].
  - intros [j [Hj ->]]%IH. exists j. split; [lia|done].
Qed.

Lemma backtrack_all ds rest after :
  ds <> [] -> backtrack (length ds) ds (after ++ rest) after = Some ds.
Proof.
  intros Hne. destruct (length ds) as [|k] eqn:Hlen; [by destruct ds|].
  cbn [backtrack]. rewrite <- Hlen, drop_all, app_nil_l, strip_prefix_app.
  by rewrite firstn_all.
Qed.

(** The pattern matches where its text stands. *)
Lemma match_at_here re ds rest :
  ds <> [] -> Forall (fun c => is_digit c = true) ds ->
  stops_digits (chars (re_after re) ++ rest) ->
  match_at re (chars (re_before re) ++ ds ++ chars (re_after re) ++ rest) = Some ds.
Proof.
  intros Hne Hds Hstop. unfold match_at.
  rewrite strip_prefix_app, (span_digits_run _ _ Hds Hstop).
  by apply backtrack_all.
Qed.

(** No match starts inside a text that lacks the first character of the
    pattern. *)
Lemma search_skip re c p pre s :
  chars (re_before re) = c :: p -> c ∉ pre ->
  search_from re (pre ++ s) = search_from re s.
Proof.
  intros Hre. induction pre as [|a pre IH]; [done|]. intros Hc.
  apply not_elem_of_cons in Hc as [Hca Hc].
  cbn [app search_from]. unfold match_at at 1. rewrite Hre. cbn [strip_prefix].
  rewrite bool_decide_eq_false_2 by done. by apply IH.
Qed.

Lemma search_absent re c p s :
  chars (re_before re) = c :: p -> c ∉ s -> search_from re s = None.
Proof.
  intros Hre Hc. rewrite <- (app_nil_r s), (search_skip _ _ _ _ _ Hre Hc).
  cbn. unfold match_at. by rewrite Hre.
Qed.

Lemma search_found re c p pre ds rest :
  chars (re_before re) = c :: p -> c ∉ pre ->
  ds <> [] -> Forall (fun c => is_digit c = true) ds ->
  stops_digits (chars (re_after re) ++ rest) ->
  search_from re (pre ++ chars (re_before re) ++ ds ++ chars (re_after re) ++ rest)
  = Some ds.
Proof.
  intros Hre Hc Hne Hds Hstop. rewrite (search_skip _ _ _ _ _ Hre Hc).
  destruct (chars (re_before re) ++ _) eqn:E; cbn [search_from];
    rewrite <- E, match_at_here; done.
Qed.

(** What a search captures is a non-empty run of digits. *)
Lemma search_group re s g :
  search_from re s = Some g -> g <> [] /\ Forall (fun c => is_digit c = true) g.
Proof.
  induction s as [|a s IH]; cbn [search_from]; unfold match_at at 1;
    destruct (strip_prefix _ _) as [rest|] eqn:Hp; try done;
    try (destruct (span_digits rest) as [ds rest'] eqn:Hspan;
         destruct (backtrack _ _ _ _) as [g'|] eqn:Hb; [|done];
         intros [= <-]; apply backtrack_spec in Hb as [j [Hj ->]];
         apply span_digits_spec in Hspan; split;
         [ destruct ds; [cbn in Hj; lia|]; by destruct j; [lia|]
         | by apply Forall_take ]).
Qed.

Lemma digits_uint g :
  Forall (fun c => is_digit c = true) g ->
  exists d, NilEmpty.uint_of_string (text g) = Some d.
Proof.
  induction 1 as [|c g Hc _ [d IH]]; [by exists Decimal.Nil|].
  cbn. change (String.string_of_list_ascii g) with (text g). rewrite IH.
  destruct c as [[] [] [] [] [] [] [] []]; try discriminate Hc; cbn; eauto.
Qed.

Lemma of_uint_nonneg (d : Decimal.uint) : 0 <= Z.of_uint d.
Proof. unfold Z.of_uint. lia. Qed.

(** [int] of a captured group never fails. *)
Lemma py_int_group g :
  g <> [] -> Forall (fun c => is_digit c = true) g ->
  exists n, py_int (text g) = Some n /\ 0 <= n.
Proof.
  intros Hne Hg. destruct (digits_uint g Hg) as [d Hd].
  destruct g as [|c g]; [done|].
  rewrite py_int_plain; [|done|].
  2: { rewrite chars_text. eapply Forall_impl; [exact Hg|]. by left. }
  unfold py_decimal.
  change (text (c :: g)) with (String c (text g)) in *.
  cbn [NilZero.int_of_string].
  assert ((c =? "-")%char = false) as ->.
  { apply Ascii.eqb_neq. intros ->. by inversion Hg. }
  cbn [NilZero.uint_of_string]. rewrite Hd. cbn.
  eexists; split; [done | apply of_uint_nonneg].
Qed.

Lemma re_search_number re body g :
  re_search re body = Some g -> exists n, py_int g = Some n /\ 0 <= n.
Proof.
  unfold re_search. destruct (search_from re (chars body)) as [l|] eqn:E; [|done].
  intros [= <-]. apply search_group in E as [? ?]. by apply py_int_group.
Qed.
End Regex.

(** ** Confirmations can be read back *)

Ltac literal := compute_done.

Section Confirmation.
Variables (amount root_id skirmish_id total : Z) (troop_type team_name : string).

Hypothesis troop_type_paren : lacks "(" troop_type.
Hypothesis troop_type_S : lacks "S" troop_type.
Hypothesis team_name_paren : lacks "(" team_name.
Hypothesis root_id_nonneg : 0 <= root_id.
Hypothesis skirmish_id_nonneg : 0 <= skirmish_id.

Let reply : string :=
  SkirmishCommand.confirmation amount troop_type root_id
    (SkirmishCommand.subskirmish_marker root_id skirmish_id) total team_name.

(** The text up to the name of the root skirmish, and what follows the
    marker. *)
Let head_ : list ascii :=
  chars "**Confirmed**: You have committed " ++ chars (fmt_d amount) ++
  chars " of your forces as **" ++ chars troop_type ++ chars "** to **".

Let tail_ : list ascii :=
  chars "." ++ chars NL ++ chars NL ++ chars "As of now, you have committed " ++
  chars (fmt_d total) ++ chars " total.  **For " ++ chars team_name ++ chars "!**".

Lemma head_lacks c :
  is_digit c = false -> c <> "-"%char -> lacks c troop_type ->
  c ∉ chars "**Confirmed**: You have committed " ->
  c ∉ chars " of your forces as **" -> c ∉ chars "** to **" ->
  c ∉ head_.
Proof.
  intros Hd Hm Ht H1 H2 H3. unfold head_.
  rewrite !not_elem_of_app. repeat split; try done. by apply fmt_d_lacks.
Qed.

Lemma tail_lacks_paren : "("%char ∉ tail_.
Proof.
  unfold tail_. rewrite !not_elem_of_app.
  repeat split; try done; try literal. by apply fmt_d_lacks.
Qed.

Lemma found_text (s : string) : text <$> Some (chars s) = Some s.
Proof. cbn [fmap option_fmap option_map]. by rewrite text_chars. Qed.

Lemma reply_chars :
  chars reply =
  head_ ++ chars "Skirmish #" ++ chars (fmt_d root_id) ++ chars "*" ++
  (chars "*" ++ chars (SkirmishCommand.subskirmish_marker root_id skirmish_id) ++ tail_).
Proof.
  unfold reply, SkirmishCommand.confirmation, head_, tail_.
  rewrite !chars_app.
  change (chars "** to **Skirmish #") with (chars "** to **" ++ chars "Skirmish #").
  change (chars "**") with (chars "*" ++ chars "*").
  change (chars " of your ") with (chars " of your " ++ []).
  change (chars "forces as **") with (chars "forces as **" ++ []).
  change (chars " of your forces as **")
    with (chars " of your " ++ chars "forces as **").
  change (chars "As of now, you have committed ")
    with (chars "As of now, you " ++ chars "have committed ").
  by rewrite <- !app_assoc.
Qed.

(** A root: no subskirmish marker anywhere, the skirmish marker names it. *)
Lemma root_reply_searches :
  root_id = skirmish_id ->
  re_search subskirmish_re reply = None /\
  re_search skirmish_re reply = Some (fmt_d skirmish_id).
Proof.
  intros Heq. unfold re_search. rewrite reply_chars.
  unfold SkirmishCommand.subskirmish_marker.
  rewrite bool_decide_eq_false_2 by (intros H; by apply H). rewrite <- Heq.
  destruct (fmt_d_digits root_id root_id_nonneg) as [Hds Hne]. split.
  - erewrite search_absent; [done | reflexivity |].
    rewrite !not_elem_of_app. repeat split; try literal.
    + apply head_lacks; try done; literal.
    + by apply fmt_d_lacks.
    + apply tail_lacks_paren.
  - erewrite (search_found skirmish_re); [by rewrite found_text | reflexivity | | done..].
    apply head_lacks; try done; literal.
Qed.

(** A child: the subskirmish marker is found first and names the child. *)
Lemma child_reply_searches :
  root_id <> skirmish_id ->
  re_search subskirmish_re reply = Some (fmt_d skirmish_id).
Proof.
  intros Hchild. unfold re_search. rewrite reply_chars.
  unfold SkirmishCommand.subskirmish_marker.
  rewrite bool_decide_eq_true_2 by done.
  destruct (fmt_d_digits skirmish_id skirmish_id_nonneg) as [Hds Hne].
  rewrite !chars_app.
  change (chars " (subskirmish ") with (chars " " ++ chars "(subskirmish ").
  rewrite <- !app_assoc.
  rewrite (app_assoc head_), (app_assoc (head_ ++ _)), (app_assoc ((head_ ++ _) ++ _)),
    (app_assoc (((head_ ++ _) ++ _) ++ _)), (app_assoc ((((head_ ++ _) ++ _) ++ _) ++ _)).
  erewrite (search_found subskirmish_re); [by rewrite found_text | reflexivity | | done..].
  rewrite !not_elem_of_app. repeat split; try literal.
  - apply head_lacks; try done; literal.
  - by apply fmt_d_lacks.
Qed.

Lemma reply_extract_marker :
  SkirmishCommand.extract_marker reply = Ret (Some skirmish_id).
Proof.
  unfold SkirmishCommand.extract_marker.
  destruct (decide (root_id = skirmish_id)) as [Heq|Hne].
  - destruct (root_reply_searches Heq) as [-> ->]. by rewrite py_int_fmt_d.
  - rewrite (child_reply_searches Hne). by rewrite py_int_fmt_d.
Qed.
End Confirmation.

(** ** The messaging boundary *)

Ltac run :=
  cbv beta iota zeta delta
    [bind ret raise try_except failable remote engine emit warning commit rollback
     modify_session get_player get_session query_first query_count time_now
     Context_reply Context_submit extend];
  cbn [session trace].

Lemma extend_extend st evs evs' : extend (extend st evs) evs' = extend st (evs ++ evs').
Proof. unfold extend. cbn. by rewrite app_assoc. Qed.

Lemma Context_reply_eq W reply st :
  Context_reply W reply st =
  match comment_reply W (trace st) reply with
  | Ret r => (Ret r, extend st [EvReply reply])
  | Raise APIException =>
      (Ret None, extend st [EvReply reply; EvWarning "Reddit API call failed! "])
  | Raise Timeout => (Ret None, extend st [EvReply reply; EvWarning "Socket timeout! "])
  | Raise e => (Raise e, extend st [EvReply reply])
  end.
Proof.
  unfold Context_reply, failable, try_except, remote, extend.
  destruct (comment_reply W (trace st) reply) as [r|[]]; try reflexivity;
    cbn; by rewrite <- app_assoc.
Qed.

Lemma Context_submit_eq W srname title body st :
  Context_submit W srname title body st =
  match reddit_submit W (trace st) srname title body with
  | Ret r => (Ret r, extend st [EvSubmit srname title body])
  | Raise APIException =>
      (Ret None,
       extend st [EvSubmit srname title body; EvWarning "Reddit API call failed! "])
  | Raise Timeout =>
      (Ret None, extend st [EvSubmit srname title body; EvWarning "Socket timeout! "])
  | Raise e => (Raise e, extend st [EvSubmit srname title body])
  end.
Proof.
  unfold Context_submit, failable, try_except, remote, extend.
  destruct (reddit_submit W (trace st) srname title body) as [r|[]]; try reflexivity;
    cbn; by rewrite <- app_assoc.
Qed.

(** A reply never touches the session; it adds the call to the trace and at
    most a warning. *)
Lemma Context_reply_frame W reply st r st' :
  Context_reply W reply st = (r, st') ->
  session st' = session st /\
  exists ws, trace st' = trace st ++ EvReply reply :: ws /\
             Forall (fun ev => is_warning ev = true) ws.
Proof.
  rewrite Context_reply_eq.
  destruct (comment_reply W (trace st) reply) as [?|[]]; intros [= <- <-];
    (split; [done|]); eexists; (split; [reflexivity|]); repeat constructor.
Qed.

Lemma get_region_found W where_ self_where require st dest :
  lookup_region (pending (session st)) where_ = Some dest ->
  get_region W where_ self_where require st = (Ret (Some dest), st).
Proof.
  unfold lookup_region, get_region. run.
  destruct (List.find _ _) as [r|]; [by intros [= ->]|]. by intros ->.
Qed.

(** ** The trace only grows *)

Create HintDb grows.

Lemma grows_ret {A} (a : A) : grows (ret a).
Proof. intros st r st' [= <- <-]. exists []. by rewrite app_nil_r. Qed.

Lemma grows_raise {A} e : grows (@raise A e).
Proof. intros st r st' [= <- <-]. exists []. by rewrite app_nil_r. Qed.

Lemma grows_pure {A} (f : HState -> Result A) : grows (fun st => (f st, st)).
Proof. intros st r st' [= <- <-]. exists []. by rewrite app_nil_r. Qed.

Lemma grows_bind {A B} (m : M A) (k : A -> M B) :
  grows m -> (forall a, grows (k a)) -> grows (bind m k).
Proof.
  intros Hm Hk st r st'. unfold bind.
  destruct (m st) as [[a|e] st1] eqn:E1.
  - intros E2. destruct (Hm _ _ _ E1) as [evs1 H1], (Hk _ _ _ _ E2) as [evs2 H2].
    exists (evs1 ++ evs2). by rewrite H2, H1, app_assoc.
  - intros [= <- <-]. eauto.
Qed.

Lemma grows_try_except {A} (body : M A) handler :
  grows body -> (forall e h, handler e = Some h -> grows h) ->
  grows (try_except body handler).
Proof.
  intros Hb Hh st r st'. unfold try_except.
  destruct (body st) as [[a|e] st1] eqn:E1.
  - intros [= <- <-]. eauto.
  - destruct (handler e) as [h|] eqn:Eh.
    + intros E2. destruct (Hb _ _ _ E1) as [evs1 H1], (Hh _ _ Eh _ _ _ E2) as [evs2 H2].
      exists (evs1 ++ evs2). by rewrite H2, H1, app_assoc.
    + intros [= <- <-]. eauto.
Qed.

Lemma grows_emit ev : grows (emit ev).
Proof. intros st r st' [= <- <-]. by exists [ev]. Qed.

Lemma grows_modify_session f : grows (modify_session f).
Proof. intros st r st' [= <- <-]. exists []. cbn. by rewrite app_nil_r. Qed.

Lemma grows_remote {A} ev (answer : list Event -> Result A) : grows (remote ev answer).
Proof. intros st r st' [= <- <-]. by exists [ev]. Qed.

Lemma grows_engine {A} ev (op : Session -> Result A * Session) : grows (engine ev op).
Proof.
  intros st r st'. unfold engine. destruct (op (session st)).
  intros [= <- <-]. by exists [ev].
Qed.

Lemma grows_if {A} (b : bool) (m1 m2 : M A) :
  grows m1 -> grows m2 -> grows (if b then m1 else m2).
Proof. by destruct b. Qed.

#[local] Hint Resolve grows_ret grows_raise grows_bind grows_emit grows_modify_session
  grows_remote grows_engine grows_if : grows.

Lemma grows_failable {A} (f : M (option A)) : grows f -> grows (failable f).
Proof.
  intros Hf. apply grows_try_except; [done|].
  intros [] h [= <-]; unfold warning; auto with grows.
Qed.

Lemma grows_commit : grows commit.
Proof. unfold commit. auto with grows. Qed.

Lemma grows_rollback : grows rollback.
Proof. unfold rollback. auto with grows. Qed.

Lemma grows_Context_reply W reply : grows (Context_reply W reply).
Proof. apply grows_failable, grows_remote. Qed.

Lemma grows_Context_submit W srname title body :
  grows (Context_submit W srname title body).
Proof. apply grows_failable, grows_remote. Qed.

Lemma grows_get_player : grows get_player.
Proof. apply (grows_pure (fun st => Ret (player (pending (session st))))). Qed.

Lemma grows_get_session : grows get_session.
Proof. apply (grows_pure (fun st => Ret (session st))). Qed.

Lemma grows_query_first {A} table (p : A -> bool) : grows (query_first table p).
Proof. apply (grows_pure (fun st => Ret (List.find p (table (pending (session st)))))). Qed.

Lemma grows_query_count {A} table (p : A -> bool) : grows (query_count table p).
Proof.
  apply (grows_pure
           (fun st => Ret (length (List.filter p (table (pending (session st))))))).
Qed.

#[local] Hint Resolve grows_failable grows_commit grows_rollback grows_Context_reply
  grows_Context_submit grows_get_player grows_get_session grows_query_first
  grows_query_count : grows.

Lemma grows_warning message : grows (warning message).
Proof. apply grows_emit. Qed.

#[local] Hint Resolve grows_warning : grows.


(** ** [MoveCommand] *)

Section Move.
Variables (E : Engine) (W : World) (self : MoveCommand.t) (context : Context).
Variables (st : HState) (dest : Region.t) (speed : Z).

Hypothesis region_known :
  lookup_region (pending (session st)) (MoveCommand.where_ self) = Some dest.
Hypothesis speed_configured : game (config context) !! "speed" = Some speed.

Let amount : Z := MoveCommand.decoded_amount self (player (pending (session st))).

(** [execute] up to the return of [player.move]. *)
Lemma move_run res s1 :
  move E amount dest speed (session st) = (res, s1) ->
  let st1 := after_call st (EvMove amount dest speed) s1 in
  MoveCommand.execute E W self context st =
  match res with
  | Ret order =>
      (Context_reply W (MoveCommand.confirmed E amount dest order) ;; commit)
        {| session := with_pending (update_player (User.set_defectable false)) s1;
           trace := trace st1 |}
  | Raise e =>
      match MoveCommand.refuse E W self dest e with
      | Some clause => clause st1
      | None => (Raise e, st1)
      end
  end.
Proof.
  intros Hmove st1. unfold MoveCommand.execute.
  unfold bind at 1. rewrite (get_region_found _ _ _ _ _ _ region_known).
  unfold config_game. rewrite speed_configured.
  cbv beta iota zeta delta [bind ret try_except engine get_player modify_session].
  fold amount. rewrite Hmove. destruct res as [order|e]; [reflexivity|].
  destruct (MoveCommand.refuse E W self dest e) as [clause|] eqn:Hc; [|reflexivity].
  unfold st1, after_call. destruct (clause _) as [[[]|e'] st']; reflexivity.
Qed.



(** *** Outcomes of a move *)

Lemma move_success_outcome order s1 r st' :
  move E amount dest speed (session st) = (Ret order, s1) ->
  MoveCommand.execute E W self context st = (r, st') ->
  pending (session st') = update_player (User.set_defectable false) (pending s1) /\
  (exists ws,
      Forall (fun ev => is_warning ev = true) ws /\
      trace st' =
      trace st ++ EvMove amount dest speed ::
        EvReply (MoveCommand.confirmed E amount dest order) ::
        ws ++ (if r is Ret _ then [EvCommit] else [])) /\
  (r = Ret tt -> committed (session st') = pending (session st')) /\
  (forall e, r = Raise e ->
     comment_reply W (trace st ++ [EvMove amount dest speed])
       (MoveCommand.confirmed E amount dest order) = Raise e /\
     infrastructure e = false).
Proof.
  intros Hmove. rewrite (move_run _ _ Hmove).
  unfold commit, bind, emit, modify_session. rewrite Context_reply_eq.
  cbn [trace session after_call].
  destruct (comment_reply W _ _) as [?|e] eqn:Hreply.
  - intros [= <- <-].
    cbn [trace session extend pending committed session_commit with_pending].
    split; [reflexivity|]. split.
    { exists []. split; [constructor|]. by rewrite <- !app_assoc. }
    split; [reflexivity|]. by intros e0 [=].
  - destruct e; intros [= <- <-];
      cbn [trace session extend pending committed session_commit with_pending];
      (split; [reflexivity|]);
      match goal with
      | |- context [EvWarning ?m] =>
          split; [exists [EvWarning m]; split;
                    [by repeat constructor | by rewrite <- !app_assoc]|];
          split; [reflexivity | by intros e0 [=]]
      | |- _ =>
          split; [exists []; split; [constructor | by rewrite <- !app_assoc]|];
          split; [by intros [=] | by intros e0 [= <-]]
      end.
Qed.

End Move.


(** ** [InvadeCommand] *)

Lemma soft_reply W reply st :
  soft (comment_reply W (trace st) reply) ->
  exists r ws, Context_reply W reply st = (Ret r, extend st (EvReply reply :: ws)) /\
               Forall (fun ev => is_warning ev = true) ws.
Proof.
  rewrite Context_reply_eq.
  destruct (comment_reply W (trace st) reply) as [r|[]]; cbn; try done; intros _.
  - exists r, []. by split.
  - exists None, [EvWarning "Reddit API call failed! "]. split; [done|]. by repeat constructor.
  - exists None, [EvWarning "Socket timeout! "]. split; [done|]. by repeat constructor.
Qed.

Lemma unconfirmed_submit W srname title body st :
  unconfirmed (reddit_submit W (trace st) srname title body) ->
  exists ws, Context_submit W srname title body st
             = (Ret None, extend st (EvSubmit srname title body :: ws)) /\
             Forall (fun ev => is_warning ev = true) ws.
Proof.
  rewrite Context_submit_eq.
  destruct (reddit_submit W (trace st) srname title body) as [[r|]|[]];
    cbn; try done; intros _.
  - exists []. by split.
  - exists [EvWarning "Reddit API call failed! "]. split; [done|]. by repeat constructor.
  - exists [EvWarning "Socket timeout! "]. split; [done|]. by repeat constructor.
Qed.



Section Invade.
Variables (E : Engine) (W : World) (self : InvadeCommand.t) (context : Context).
Variables (st : HState) (dest : Region.t) (delay : Z).

Hypothesis region_known :
  lookup_region (pending (session st)) (InvadeCommand.where_ self) = Some dest.
Hypothesis delay_configured : game (config context) !! "battle_delay" = Some delay.

Let begins : Z := clock W (trace st) + delay.

(** [execute] up to the block under [if battle:]. *)
Lemma invade_run res s1 :
  invade E dest begins (session st) = (res, s1) ->
  let st1 := after_call st (EvInvade dest begins) s1 in
  InvadeCommand.execute E W self context st =
  match res with
  | Ret battle =>
      match game (config context) !! "battle_lockout" with
      | Some lockout =>
          InvadeCommand.announce E W dest (Battle.set_lockout lockout battle)
            {| session :=
                 session_commit
                   (with_pending
                      (update_battle (Battle.id battle) (Battle.set_lockout lockout))
                      s1);
               trace := trace st1 ++ [EvCommit] |}
      | None => InvadeCommand.announce E W dest battle st1
      end
  | Raise e =>
      match InvadeCommand.refuse E W dest e with
      | Some clause => clause st1
      | None => (Raise e, st1)
      end
  end.
Proof.
  intros Hinv st1. unfold InvadeCommand.execute.
  unfold bind at 1. rewrite (get_region_found _ _ _ _ _ _ region_known).
  unfold config_game. rewrite delay_configured.
  cbv beta iota zeta delta [bind ret try_except engine time_now].
  fold begins. rewrite Hinv. destruct res as [battle|e].
  - destruct (game (config context) !! "battle_lockout") as [lockout|] eqn:Hl.
    + rewrite bool_decide_eq_true_2 by eauto. reflexivity.
    + rewrite bool_decide_eq_false_2 by (by intros [? ?]). reflexivity.
  - destruct (InvadeCommand.refuse E W dest e) as [clause|] eqn:Hc; [|reflexivity].
    unfold st1, after_call. destruct (clause _) as [[[]|e'] st']; reflexivity.
Qed.

(** Without confirmation of the thread the block ends in a rollback. *)
Lemma announce_unconfirmed battle sta :
  (forall tr reply, soft (comment_reply W tr reply)) ->
  (forall tr srname title body, unconfirmed (reddit_submit W tr srname title body)) ->
  exists evs,
    InvadeCommand.announce E W dest battle sta =
    (Ret tt, {| session := session_rollback (session sta);
                trace := trace sta ++ evs ++ [EvRollback] |}) /\
    Forall (fun ev => match ev with EvCommit => False | _ => True end) evs.
Proof.
  intros Hreply Hsubmit. unfold InvadeCommand.announce.
  destruct (soft_reply W ("**Confirmed**  Battle will begin at " +:+ begins_str E battle)
              sta (Hreply _ _)) as [r [ws [Hr Hws]]].
  unfold bind at 1. rewrite Hr. unfold bind at 1, get_player at 1.
  set (stb := extend sta _).
  destruct (unconfirmed_submit W (Region.srname dest)
              ("[Invasion] The " +:+ num_to_team E (User.team (player (pending (session stb)))) +:+
               " armies march!")
              (InvadeCommand.announcement (begins_str E battle)) stb (Hsubmit _ _ _ _))
    as [ws' [Hs Hws']].
  unfold bind at 1. rewrite Hs.
  unfold warning, rollback, bind, emit, modify_session. cbn [session trace extend stb].
  match goal with
  | |- context [(((trace sta ++ ?a :: ws) ++ ?b :: ws') ++ [?c]) ++ [EvRollback]] =>
      exists (a :: ws ++ b :: ws' ++ [c])
  end.
  split.
  - do 2 f_equal. by repeat first [rewrite <- app_assoc | progress (cbn [app])].
  - constructor; [done|]. apply Forall_app. split.
    { eapply Forall_impl; [exact Hws|]. by intros []. }
    constructor; [done|]. apply Forall_app. split.
    { eapply Forall_impl; [exact Hws'|]. by intros []. }
    by repeat constructor.
Qed.


Section Unconfirmed.
Variables (battle : Battle.t) (s1 : Session).
Hypothesis invaded : invade E dest begins (session st) = (Ret battle, s1).
Hypothesis replies_soft : forall tr reply, soft (comment_reply W tr reply).
Hypothesis submit_unconfirmed :
  forall tr srname title body, unconfirmed (reddit_submit W tr srname title body).

(** No lockout configured: what the engine left pending is rolled back. *)
Lemma invade_unconfirmed_without_lockout :
  game (config context) !! "battle_lockout" = None ->
  exists st', InvadeCommand.execute E W self context st = (Ret tt, st') /\
              session st' = session_rollback s1.
Proof.
  intros Hl. rewrite (invade_run _ _ invaded), Hl.
  destruct (announce_unconfirmed battle (after_call st (EvInvade dest begins) s1)
              replies_soft submit_unconfirmed) as [evs [-> _]].
  eexists. split; reflexivity.
Qed.

(** A lockout configured: the commit that follows the assignment of the
    lockout has made the pending rows durable, the rollback finds nothing to
    undo. *)
Lemma invade_unconfirmed_with_lockout lockout :
  game (config context) !! "battle_lockout" = Some lockout ->
  exists st', InvadeCommand.execute E W self context st = (Ret tt, st') /\
              committed (session st') =
              update_battle (Battle.id battle) (Battle.set_lockout lockout) (pending s1).
Proof.
  intros Hl. rewrite (invade_run _ _ invaded), Hl.
  match goal with
  | |- context [InvadeCommand.announce E W dest ?b ?sta] =>
      destruct (announce_unconfirmed b sta replies_soft submit_unconfirmed)
        as [evs [-> _]]
  end.
  eexists. split; reflexivity.
Qed.
End Unconfirmed.
End Invade.

(** ** [SkirmishCommand] *)

Lemma extract_marker_eq body :
  SkirmishCommand.extract_marker body = Ret (marker_id body).
Proof.
  unfold SkirmishCommand.extract_marker, marker_id.
  destruct (re_search subskirmish_re body) as [g|] eqn:E1.
  - destruct (re_search_number _ _ _ E1) as [n [-> _]]. done.
  - destruct (re_search skirmish_re body) as [g|] eqn:E2; [|done].
    destruct (re_search_number _ _ _ E2) as [n [-> _]]. done.
Qed.

Lemma marker_id_nonneg body n : marker_id body = Some n -> 0 <= n.
Proof.
  unfold marker_id.
  destruct (re_search subskirmish_re body) as [g|] eqn:E1.
  - destruct (re_search_number _ _ _ E1) as [m [-> ?]]. by intros [= <-].
  - destruct (re_search skirmish_re body) as [g|] eqn:E2; [|done].
    destruct (re_search_number _ _ _ E2) as [m [-> ?]]. by intros [= <-].
Qed.

Lemma markers_for_mark pid p s :
  markers_for pid (pending (mark_processed p s)) =
  (markers_for pid (pending s) + if bool_decide (Processed.id36 p = pid) then 1 else 0)%nat.
Proof.
  unfold markers_for, mark_processed. cbn.
  rewrite List.filter_app, length_app. cbn. by destruct (bool_decide _).
Qed.

Section Reconcile.
Variables (W : World) (context : Context) (battle : Battle.t).

Let pid : string := Comment.parent_id (comment context).

Ltac unfold_extract :=
  unfold SkirmishCommand.extract_subskirmish, failable, try_except;
  fold pid.

(** The message came without an author: nothing is looked at. *)
Lemma extract_no_author st :
  Comment.author (comment context) = None ->
  SkirmishCommand.extract_subskirmish W context battle st = (Ret None, st).
Proof. intros Ha. unfold_extract. by rewrite Ha. Qed.

(** Step (1): the parent is in the log, the reconciliation fails closed. *)
Lemma extract_already_processed st :
  markers_for pid (pending (session st)) <> O ->
  SkirmishCommand.extract_subskirmish W context battle st = (Ret None, st).
Proof.
  intros Hm. unfold_extract.
  destruct (Comment.author (comment context)); [|done].
  unfold bind, query_count. fold (markers_for pid (pending (session st))).
  by rewrite bool_decide_eq_true_2.
Qed.

(** Steps (2) to (4) for a parent that could be fetched and has an author. *)
Lemma extract_fetched st who parent author :
  Comment.author (comment context) = Some who ->
  markers_for pid (pending (session st)) = O ->
  reddit_get_info W (trace st) pid = Ret (Some parent) ->
  Thing.author parent = Some author ->
  SkirmishCommand.extract_subskirmish W context battle st =
  if bool_decide (author <> username (config context)) then
    (Ret None,
     {| session :=
          mark_processed (Processed.mk (Thing.name parent) (Battle.id battle))
            (session st);
        trace := trace st ++ [EvGetInfo pid; EvCommit] |})
  else (Ret (marker_id (Thing.body parent)), extend st [EvGetInfo pid]).
Proof.
  intros Ha Hm Hinfo Hauthor. unfold_extract. rewrite Ha.
  unfold bind at 1, query_count at 1. fold (markers_for pid (pending (session st))).
  rewrite Hm. rewrite bool_decide_eq_false_2 by (intros H; by apply H).
  unfold bind at 1, remote at 1. rewrite Hinfo, Hauthor.
  destruct (bool_decide (author <> username (config context))).
  - unfold commit, bind, emit, modify_session, ret, mark_processed. cbn.
    by rewrite <- app_assoc.
  - by rewrite extract_marker_eq.
Qed.

(** A parent that was deleted is neither marked nor read. *)
Lemma extract_parent_deleted st who parent :
  Comment.author (comment context) = Some who ->
  markers_for pid (pending (session st)) = O ->
  reddit_get_info W (trace st) pid = Ret (Some parent) ->
  Thing.author parent = None ->
  SkirmishCommand.extract_subskirmish W context battle st =
  (Ret None, extend st [EvGetInfo pid]).
Proof.
  intros Ha Hm Hinfo Hauthor. unfold_extract. rewrite Ha.
  unfold bind at 1, query_count at 1. fold (markers_for pid (pending (session st))).
  rewrite Hm. rewrite bool_decide_eq_false_2 by (intros H; by apply H).
  unfold bind at 1, remote at 1. by rewrite Hinfo, Hauthor.
Qed.

(** A fetch that times out leaves no marker either. *)
Lemma extract_fetch_timeout st who :
  Comment.author (comment context) = Some who ->
  markers_for pid (pending (session st)) = O ->
  reddit_get_info W (trace st) pid = Raise Timeout ->
  SkirmishCommand.extract_subskirmish W context battle st =
  (Ret None, extend st [EvGetInfo pid; EvWarning "Socket timeout! "]).
Proof.
  intros Ha Hm Hinfo. unfold_extract. rewrite Ha.
  unfold bind at 1, query_count at 1. fold (markers_for pid (pending (session st))).
  rewrite Hm. rewrite bool_decide_eq_false_2 by (intros H; by apply H).
  unfold bind at 1, remote at 1. rewrite Hinfo.
  unfold warning, bind, emit, ret, extend. cbn. by rewrite <- app_assoc.
Qed.

(** What one attempt does to the session: nothing, or one new marker in a
    log that had none for this parent. *)
Lemma extract_effect st r st' :
  SkirmishCommand.extract_subskirmish W context battle st = (r, st') ->
  session st' = session st \/
  (markers_for pid (pending (session st)) = O /\ r = Ret None /\
   exists p, session st' = mark_processed p (session st)).
Proof.
  unfold_extract.
  destruct (Comment.author (comment context)); [|intros [= <- <-]; by left].
  unfold bind at 1, query_count at 1. fold (markers_for pid (pending (session st))).
  case_bool_decide as Hm; [intros [= <- <-]; by left|].
  assert (markers_for pid (pending (session st)) = O) as Hm0
    by (destruct (markers_for _ _); [done | by destruct Hm]).
  unfold bind at 1, remote at 1.
  destruct (reddit_get_info W (trace st) pid) as [[parent|]|e].
  - destruct (Thing.author parent) as [author|]; [|intros [= <- <-]; by left].
    case_bool_decide.
    + unfold commit, bind, emit, modify_session, ret. intros [= <- <-].
      right. repeat split; try done. by eexists.
    + rewrite extract_marker_eq. intros [= <- <-]. by left.
  - unfold warning, bind, emit, ret. intros [= <- <-]. by left.
  - destruct e; intros [= <- <-]; by left.
Qed.

(** An attempt by a message that has an author, on a parent that is not in
    the log, starts with the fetch of the parent. *)
Lemma extract_fetches st who :
  Comment.author (comment context) = Some who ->
  markers_for pid (pending (session st)) = O ->
  exists evs,
    trace (SkirmishCommand.extract_subskirmish W context battle st).2
    = trace st ++ EvGetInfo pid :: evs.
Proof.
  intros Ha Hm. unfold_extract. rewrite Ha.
  unfold bind at 1, query_count at 1. fold (markers_for pid (pending (session st))).
  rewrite Hm. rewrite bool_decide_eq_false_2 by (intros H; by apply H).
  unfold bind at 1, remote at 1.
  destruct (reddit_get_info W (trace st) pid) as [[parent|]|e].
  - destruct (Thing.author parent) as [author|]; [|by exists []].
    case_bool_decide.
    + exists [EvCommit]. unfold commit, bind, emit, modify_session, ret. cbn.
      by rewrite <- app_assoc.
    + rewrite extract_marker_eq. by exists [].
  - exists [EvWarning ("Can't get parent " +:+ pid)].
    unfold warning, bind, emit, ret. cbn. by rewrite <- app_assoc.
  - destruct e; try (by exists []).
    + exists [EvWarning "Reddit API call failed! "].
      unfold warning, bind, emit, ret. cbn. by rewrite <- app_assoc.
    + exists [EvWarning "Socket timeout! "].
      unfold warning, bind, emit, ret. cbn. by rewrite <- app_assoc.
Qed.

(** Without a fetch the trace stays as it is. *)
Lemma extract_closed st :
  Comment.author (comment context) = None \/
  markers_for pid (pending (session st)) <> O ->
  SkirmishCommand.extract_subskirmish W context battle st = (Ret None, st).
Proof. intros [?|?]; [by apply extract_no_author | by apply extract_already_processed]. Qed.
End Reconcile.

(** [resolve_parent] when the parent message is not itself tracked. *)
Lemma resolve_untracked W context current st :
  List.find
    (fun s => bool_decide
                (SkirmishAction.comment_id s = Some (Comment.parent_id (comment context))))
    (skirmishes (pending (session st))) = None ->
  SkirmishCommand.resolve_parent W context current st =
  match SkirmishCommand.extract_subskirmish W context current st with
  | (Ret (Some sub), st') =>
      if bool_decide (sub <> 0)
      then (Ret (skirmish_with_id (pending (session st')) sub), st')
      else (Ret None, st')
  | (Ret None, st') => (Ret None, st')
  | (Raise e, st') => (Raise e, st')
  end.
Proof.
  intros Hnone. unfold SkirmishCommand.resolve_parent.
  unfold bind at 1, SkirmishCommand.find_skirmish_named, query_first at 1.
  rewrite Hnone. unfold bind.
  destruct (SkirmishCommand.extract_subskirmish W context current st)
    as [[[sub|]|e] st']; try reflexivity.
  by destruct (bool_decide (sub <> 0)).
Qed.

(** Primary keys start at 1: no row is found under the id 0. *)
Lemma skirmish_with_id_zero d :
  Forall (fun s => 0 < SkirmishAction.id s) (skirmishes d) ->
  skirmish_with_id d 0 = None.
Proof.
  unfold skirmish_with_id. induction 1 as [|s l Hs _ IH]; [done|].
  cbn. rewrite bool_decide_eq_false_2 by lia. done.
Qed.

(** A private message is refused before anything is looked up. *)
Lemma skirmish_pm_run E W self context st :
  Comment.was_comment (comment context) = Some false ->
  SkirmishCommand.execute E W self context st =
  (Context_reply W
     ("You must enter your skirmish commands in the appropriate battle post") ;;
   ret tt) st.
Proof.
  intros Hpm. unfold SkirmishCommand.execute, SkirmishCommand.getattr_was_comment.
  by rewrite Hpm.
Qed.

(** ** The reference engine *)


(** * The claims *)

(** C1 (fails on the code when a lockout is configured).  The claim: when the
    invasion is valid but the announcement thread gets no confirmation, no
    Battle without its thread id remains committed, whether or not
    [battle_lockout] is configured.  Here [battle_lockout] is 300 and the
    submission times out: the handler returns normally, its last effect is the
    rollback, and yet the new Battle, without thread id, is committed - the
    commit that follows the assignment of the lockout made it durable before
    the thread was submitted. *)
Theorem invade_lockout_keeps_unannounced_battle :
  let run :=
    InvadeCommand.execute (Scenario.engine Scenario.t0)
      (Scenario.world (Raise Timeout)) Scenario.invade_R2
      (Scenario.by_pm (Some 300)) Scenario.st0 in
  run.1 = Ret tt /\
  unannounced (committed (session Scenario.st0)) = [] /\
  unannounced (committed (session run.2)) =
    [Battle.mk 1 Scenario.R2 (Scenario.t0 + 600) 300 None false] /\
  last (trace run.2) = Some EvRollback.
Proof. vm_compute. done. Qed.

(** The same invasion without a lockout: the rollback undoes the Battle. *)
Example invade_without_lockout_rolls_back :
  let run :=
    InvadeCommand.execute (Scenario.engine Scenario.t0)
      (Scenario.world (Raise Timeout)) Scenario.invade_R2
      (Scenario.by_pm None) Scenario.st0 in
  run.1 = Ret tt /\ session run.2 = session Scenario.st0.
Proof. vm_compute. done. Qed.

(** C2 as stated fails: the parent here was fetched, but its author was
    deleted.  Its author is not the engine's identity, yet no marker is
    recorded; and no skirmish id is read from its text either. *)
Lemma deleted_parent_is_not_marked :
  ~ reconciles_as_stated Fixture.world_deleted (Scenario.in_reply_to "t1_deleted")
      Scenario.B1 Scenario.st1 Fixture.deleted.
Proof. intros [_ Hin]. vm_compute in Hin. inversion Hin. Qed.

(** C2 (amended).  Reconciliation of a comment whose parent message is not a
    tracked SkirmishAction, once the parent has been fetched (the commenting
    message has an author, the parent is not in the log and the fetch
    returns a message): if the parent has an author who is not the engine's
    own identity, a ProcessedMarker for that message is recorded against the
    battle (added and committed) and the reconciliation fails; if the parent
    has no author, the reconciliation fails without a marker and without
    reading the text; otherwise the skirmish id is the one matched by the
    "subskirmish N" marker, else by the "Skirmish #N" marker, and it is
    resolved by the lookup by id. *)
Theorem reconcile_untracked_parent W context battle st who parent :
  let pid := Comment.parent_id (comment context) in
  let body := Thing.body parent in
  List.find (fun s => bool_decide (SkirmishAction.comment_id s = Some pid))
    (skirmishes (pending (session st))) = None ->
  Forall (fun s => 0 < SkirmishAction.id s) (skirmishes (pending (session st))) ->
  Comment.author (comment context) = Some who ->
  markers_for pid (pending (session st)) = O ->
  reddit_get_info W (trace st) pid = Ret (Some parent) ->
  (forall author,
      Thing.author parent = Some author -> author <> username (config context) ->
      let marker := Processed.mk (Thing.name parent) (Battle.id battle) in
      let st' := {| session := mark_processed marker (session st);
                    trace := trace st ++ [EvGetInfo pid; EvCommit] |} in
      SkirmishCommand.extract_subskirmish W context battle st = (Ret None, st') /\
      SkirmishCommand.resolve_parent W context battle st = (Ret None, st') /\
      marker ∈ processed (committed (session st'))) /\
  (Thing.author parent = None ->
   let st' := extend st [EvGetInfo pid] in
   SkirmishCommand.extract_subskirmish W context battle st = (Ret None, st') /\
   SkirmishCommand.resolve_parent W context battle st = (Ret None, st')) /\
  (Thing.author parent = Some (username (config context)) ->
   let st' := extend st [EvGetInfo pid] in
   SkirmishCommand.extract_subskirmish W context battle st = (Ret (marker_id body), st') /\
   SkirmishCommand.resolve_parent W context battle st =
     (Ret (marker_id body ≫= skirmish_with_id (pending (session st))), st') /\
   (forall g, re_search subskirmish_re body = Some g -> marker_id body = py_int g) /\
   (re_search subskirmish_re body = None ->
    forall g, re_search skirmish_re body = Some g -> marker_id body = py_int g) /\
   (re_search subskirmish_re body = None -> re_search skirmish_re body = None ->
    marker_id body = None)).
Proof.
  intros pid body Hnone Hids Hwho Hm Hinfo.
  pose proof (resolve_untracked W context battle st Hnone) as Hres.
  split; [|split].
  - intros author Hauthor Ha.
    pose proof (extract_fetched W context battle st who parent author Hwho Hm Hinfo Hauthor)
      as Hrun.
    rewrite bool_decide_eq_true_2 in Hrun by done.
    rewrite Hrun in Hres. repeat split; try done.
    cbn. apply elem_of_app. right. by left.
  - intros Hauthor.
    pose proof (extract_parent_deleted W context battle st who parent Hwho Hm Hinfo Hauthor)
      as Hrun.
    rewrite Hrun in Hres. by split.
  - intros Hauthor.
    pose proof (extract_fetched W context battle st who parent _ Hwho Hm Hinfo Hauthor)
      as Hrun.
    rewrite bool_decide_eq_false_2 in Hrun by (intros H; by apply H).
    rewrite Hrun in Hres. split; [done|]. split.
    + rewrite Hres. fold body. destruct (marker_id body) as [sub|]; [|done].
      case_bool_decide as Hz; [done|].
      assert (sub = 0) as -> by (destruct (decide (sub = 0)); [done | by destruct Hz]).
      cbn. by rewrite skirmish_with_id_zero.
    + unfold marker_id. repeat split.
      * by intros g ->.
      * by intros -> g ->.
      * by intros -> ->.
Qed.

(** A bystander's remark is marked, the engine's own confirmation is read. *)
Lemma reconcile_untracked_parent_witness :
  SkirmishCommand.resolve_parent (Scenario.world (Ret None))
    (Scenario.in_reply_to "t1_botreply") Scenario.B1 Scenario.st1 =
  (Ret (Some Scenario.S2), extend Scenario.st1 [EvGetInfo "t1_botreply"]).
Proof.
  refine
    (proj1 (proj2 (proj2 (proj2
       (reconcile_untracked_parent (Scenario.world (Ret None))
          (Scenario.in_reply_to "t1_botreply") Scenario.B1 Scenario.st1
          "alice" Scenario.bot_reply _ _ _ _ _)) _)));
    try reflexivity.
  repeat constructor.
Defined.

(** C3 as stated fails: the parent here is the engine's own confirmation, which
    is never marked; the second attempt fetches it again and matches. *)
Lemma resubmission_of_own_reply_fetches_again :
  ~ resubmission_short_circuits (Scenario.world (Ret None))
      (Scenario.in_reply_to "t1_botreply") (Scenario.in_reply_to "t1_botreply")
      Scenario.B1 Scenario.st1.
Proof. intros (_ & Hr & _). vm_compute in Hr. discriminate Hr. Qed.

(** C3 (amended).  For two attempts in a row on the same parent message, a
    ProcessedMarker for that message is written at most once; when the first
    attempt wrote it, the second attempt fails closed and leaves the state as
    it is, so it performs no fetch; the first attempt writes it when the
    commenting message has an author, the log has no marker for the parent,
    and the parent is fetched under its own name with an author that is not
    the engine's identity; as long as the marker is in the log, every later
    attempt fails closed in the same way.  A parent written by the engine
    itself is not marked by such an attempt, and a second attempt by a
    message that has an author fetches it again. *)
Theorem resubmission_after_marker W c1 c2 battle st :
  Comment.parent_id (comment c1) = Comment.parent_id (comment c2) ->
  let pid := Comment.parent_id (comment c1) in
  let st1 := (SkirmishCommand.extract_subskirmish W c1 battle st).2 in
  let run2 := SkirmishCommand.extract_subskirmish W c2 battle st1 in
  (markers_for pid (pending (session run2.2))
   <= markers_for pid (pending (session st)) + 1)%nat /\
  ((markers_for pid (pending (session st))
    < markers_for pid (pending (session st1)))%nat ->
   run2 = (Ret None, st1)) /\
  (forall who parent author,
      Comment.author (comment c1) = Some who ->
      markers_for pid (pending (session st)) = O ->
      reddit_get_info W (trace st) pid = Ret (Some parent) ->
      Thing.author parent = Some author ->
      author <> username (config c1) ->
      Thing.name parent = pid ->
      markers_for pid (pending (session st1)) = 1%nat) /\
  (forall later,
      markers_for pid (pending (session later)) <> O ->
      SkirmishCommand.extract_subskirmish W c2 battle later = (Ret None, later)) /\
  (forall who1 who2 parent,
      Comment.author (comment c1) = Some who1 ->
      Comment.author (comment c2) = Some who2 ->
      markers_for pid (pending (session st)) = O ->
      reddit_get_info W (trace st) pid = Ret (Some parent) ->
      Thing.author parent = Some (username (config c1)) ->
      session st1 = session st /\
      exists evs, trace run2.2 = trace st1 ++ EvGetInfo pid :: evs).
Proof.
  intros Hpid. cbv zeta. set (pid := Comment.parent_id (comment c1)).
  destruct (SkirmishCommand.extract_subskirmish W c1 battle st) as [r1 st1] eqn:Hrun1.
  cbn [snd].
  assert (Hclosed : markers_for pid (pending (session st1)) <> O ->
                    SkirmishCommand.extract_subskirmish W c2 battle st1 = (Ret None, st1)).
  { intros Hm. apply extract_already_processed. by rewrite <- Hpid. }
  pose proof (extract_effect _ _ _ _ _ _ Hrun1) as Heff1. fold pid in Heff1.
  pose proof (extract_fetches W c2 battle st1) as Hagain.
  rewrite <- Hpid in Hagain. fold pid in Hagain.
  destruct (SkirmishCommand.extract_subskirmish W c2 battle st1) as [r2 st2] eqn:Hrun2.
  pose proof (extract_effect _ _ _ _ _ _ Hrun2) as Heff2.
  rewrite <- Hpid in Heff2. fold pid in Heff2. cbn [fst snd] in *.
  split; [|split; [|split; [|split]]].
  - destruct Heff1 as [Hs1 | (Hm0 & _ & p & Hs1)].
    + destruct Heff2 as [Hs2 | (_ & _ & p' & Hs2)]; rewrite Hs2.
      * rewrite Hs1. lia.
      * rewrite markers_for_mark, Hs1. case_bool_decide; lia.
    + destruct (decide (markers_for pid (pending (session st1)) = O)) as [Hz|Hnz].
      * destruct Heff2 as [Hs2 | (_ & _ & p' & Hs2)]; rewrite Hs2.
        -- lia.
        -- rewrite markers_for_mark, Hz. case_bool_decide; lia.
      * specialize (Hclosed Hnz). injection Hclosed as _ ->.
        rewrite Hs1, markers_for_mark. case_bool_decide; lia.
  - intros Hlt. apply Hclosed. lia.
  - intros who parent author Hwho Hm Hinfo Hauthor Hne Hname.
    pose proof (extract_fetched W c1 battle st who parent author Hwho Hm Hinfo Hauthor)
      as Hrun. rewrite bool_decide_eq_true_2 in Hrun by done.
    rewrite Hrun1 in Hrun. injection Hrun as _ ->.
    cbn [session]. rewrite markers_for_mark. fold pid. rewrite Hm. cbn [Processed.id36].
    by rewrite bool_decide_eq_true_2.
  - intros later Hm. apply extract_already_processed. by rewrite <- Hpid.
  - intros who1 who2 parent Hwho1 Hwho2 Hm Hinfo Hauthor.
    pose proof (extract_fetched W c1 battle st who1 parent _ Hwho1 Hm Hinfo Hauthor)
      as Hrun. rewrite bool_decide_eq_false_2 in Hrun by (intros H; by apply H).
    rewrite Hrun1 in Hrun. injection Hrun as _ ->.
    split; [done|]. apply (Hagain who2 Hwho2). exact Hm.
Qed.

(** A bystander's remark: marked by the first attempt, not fetched by the
    second. *)
Lemma resubmission_after_marker_witness :
  let st1 :=
    (SkirmishCommand.extract_subskirmish (Scenario.world (Ret None))
       (Scenario.in_reply_to "t1_chatter") Scenario.B1 Scenario.st1).2 in
  SkirmishCommand.extract_subskirmish (Scenario.world (Ret None))
    (Scenario.in_reply_to "t1_chatter") Scenario.B1 st1 = (Ret None, st1).
Proof.
  refine
    (proj1 (proj2
       (resubmission_after_marker (Scenario.world (Ret None))
          (Scenario.in_reply_to "t1_chatter") (Scenario.in_reply_to "t1_chatter")
          Scenario.B1 Scenario.st1 _)) _).
  - reflexivity.
  - vm_compute. lia.
Defined.

(** C4.  Round trip between the confirmation of a skirmish and the
    reconciliation: the confirmation that the handler posts for a skirmish is
    [confirmation_for]; in its text the "(subskirmish N)" marker is present and
    matched first, with the id of the node, when the node is not a root, and
    only the "Skirmish #N" marker matches, with the id of the root, when it
    is; either way the extraction yields exactly the id of the confirmed
    node, also when it runs inside [extract_subskirmish] on the fetched
    confirmation.  Ids are primary keys (not negative); the troop type and
    the name of the team are words without "(" (and "S" for the troop
    type), as infantry, cavalry and ranged are. *)
Theorem confirmation_roundtrip E W context skirmish st :
  let sk_id := SkirmishAction.id skirmish in
  let root_id := SkirmishAction.id (get_root E skirmish (session st)) in
  let reply := SkirmishCommand.confirmation_for E skirmish (session st) in
  0 <= sk_id -> 0 <= root_id ->
  lacks "(" (SkirmishAction.troop_type skirmish) ->
  lacks "S" (SkirmishAction.troop_type skirmish) ->
  lacks "(" (num_to_team E (User.team (player (pending (session st))))) ->
  (forall r st', SkirmishCommand.confirm E W context skirmish st = (r, st') ->
                 exists evs, trace st' = trace st ++ EvReply reply :: evs) /\
  (root_id <> sk_id -> re_search subskirmish_re reply = Some (fmt_d sk_id)) /\
  (root_id = sk_id ->
   re_search subskirmish_re reply = None /\
   re_search skirmish_re reply = Some (fmt_d root_id)) /\
  SkirmishCommand.extract_marker reply = Ret (Some sk_id) /\
  (forall W' context' battle st' who parent,
      Comment.author (comment context') = Some who ->
      markers_for (Comment.parent_id (comment context')) (pending (session st')) = O ->
      reddit_get_info W' (trace st') (Comment.parent_id (comment context'))
      = Ret (Some parent) ->
      Thing.author parent = Some (username (config context')) ->
      Thing.body parent = reply ->
      SkirmishCommand.extract_subskirmish W' context' battle st' =
      (Ret (Some sk_id), extend st' [EvGetInfo (Comment.parent_id (comment context'))])).
Proof.
  intros sk_id root_id reply Hid Hroot Hp HS Hteam.
  pose proof (reply_extract_marker (SkirmishAction.amount skirmish) root_id sk_id
                (User.committed_loyalists (player (pending (session st))))
                _ _ Hp HS Hteam Hroot Hid) as Hextract.
  change (SkirmishCommand.extract_marker reply = Ret (Some sk_id)) in Hextract.
  split; [|split; [|split; [|split]]].
  - intros r st'. unfold SkirmishCommand.confirm, bind at 1, get_session at 1.
    fold reply. intros Hrun.
    assert (Hg : grows (modify_session
                          (with_pending
                             (update_skirmish (SkirmishAction.id skirmish)
                                (SkirmishAction.set_comment_id
                                   (Comment.name (comment context))))) ;; commit)).
    { apply grows_bind; [apply grows_modify_session | intros _; apply grows_commit]. }
    unfold bind at 1 in Hrun.
    destruct (Context_reply W reply st) as [[?|?] st1] eqn:Hr;
      apply Context_reply_frame in Hr as (_ & ws & Ht & _).
    + destruct (Hg _ _ _ Hrun) as [evs ->]. rewrite Ht, <- app_assoc. eauto.
    + injection Hrun as _ <-. eauto.
  - intros Hchild.
    by apply (child_reply_searches (SkirmishAction.amount skirmish) root_id sk_id
                (User.committed_loyalists (player (pending (session st)))) _ _ Hp Hid).
  - intros Heq.
    destruct (root_reply_searches (SkirmishAction.amount skirmish) root_id sk_id
                (User.committed_loyalists (player (pending (session st))))
                _ _ Hp HS Hteam Hroot Heq) as [H1 H2].
    split; [exact H1|]. etrans; [exact H2|]. by f_equal; f_equal.
  - exact Hextract.
  - intros W' context' battle st' who parent Hwho Hm Hinfo Hauthor Hbody.
    rewrite (extract_fetched W' context' battle st' who parent _ Hwho Hm Hinfo Hauthor).
    rewrite bool_decide_eq_false_2 by (intros H; by apply H).
    rewrite Hbody. pose proof (extract_marker_eq reply) as Heq.
    rewrite Hextract in Heq. injection Heq as <-. done.
Qed.

(** The confirmation of skirmish 2, a child of skirmish 1, is read back as 2. *)
Lemma confirmation_roundtrip_witness :
  SkirmishCommand.extract_subskirmish (Scenario.world (Ret None))
    (Scenario.in_reply_to "t1_botreply") Scenario.B1 Scenario.st1 =
  (Ret (Some 2), extend Scenario.st1 [EvGetInfo "t1_botreply"]).
Proof.
  refine
    (proj2 (proj2 (proj2 (proj2
       (confirmation_roundtrip (Scenario.engine (Scenario.t0 + 700))
          (Scenario.world (Ret None)) (Scenario.in_reply_to "t3_battle")
          Scenario.S2 Scenario.st1 _ _ _ _ _))))
       (Scenario.world (Ret None)) (Scenario.in_reply_to "t1_botreply")
       Scenario.B1 Scenario.st1 "alice" Scenario.bot_reply _ _ _ _ _);
    try reflexivity; try (vm_compute; discriminate); compute_done.
Defined.

(** C5.  A move that fails with InProgressException: the exception carries
    the blocking entity, and the reply tells the two cases apart - for an
    unresolved MovementOrder it names the destination and the arrival time of
    the order, for an unresolved top-level commitment the region of its
    battle; the two reports are never the same text. *)
Theorem move_in_progress_reports E W self context st dest speed other s1 :
  lookup_region (pending (session st)) (MoveCommand.where_ self) = Some dest ->
  game (config context) !! "speed" = Some speed ->
  let amount := MoveCommand.decoded_amount self (player (pending (session st))) in
  move E amount dest speed (session st) = (Raise (InProgressException other), s1) ->
  let st1 := after_call st (EvMove amount dest speed) s1 in
  (forall o, other = OtherMovementOrder o ->
     MoveCommand.execute E W self context st =
     (Context_reply W
        ("You are already leading your armies to " +:+
         region_markdown E (MovementOrder.dest o) +:+
         " - you can give further orders upon your arrival at " +:+
         arrival_str E o) ;;
      ret tt) st1) /\
  (forall s b, other = OtherSkirmishAction s -> get_battle E s s1 = Some b ->
     MoveCommand.execute E W self context st =
     (Context_reply W
        ("You have committed your armies to the battle at " +:+
         region_markdown E (Battle.region b) +:+
         " - you must see this through to the bitter end.") ;;
      ret tt) st1) /\
  (forall o b, MoveCommand.already_leading E o <> MoveCommand.committed_to_battle E b).
Proof.
  intros Hdest Hspeed amount Hmove st1.
  pose proof (move_run E W self context st dest speed Hdest Hspeed _ _ Hmove) as Hrun.
  cbn [MoveCommand.refuse] in Hrun. split; [|split].
  - intros o ->. exact Hrun.
  - intros s b -> Hb. rewrite Hrun. unfold bind, get_session, st1.
    cbn [after_call session]. by rewrite Hb.
  - intros o b. unfold MoveCommand.already_leading, MoveCommand.committed_to_battle.
    intros H. apply (f_equal (String.get 4)) in H. vm_compute in H. discriminate H.
Qed.

(** alice, already marching to R3, is told where she is going and when she
    arrives. *)
Lemma move_in_progress_reports_witness :
  MoveCommand.execute (Scenario.engine Scenario.t0) (Scenario.world (Ret None))
    Scenario.move_R3 (Scenario.by_pm None) Scenario.st_marching =
  (Ret tt,
   extend Scenario.st_marching
     [EvMove 100 Scenario.R3 60;
      EvReply
        ("You are already leading your armies to [sapphire](/r/ct_sapphire)" +:+
         " - you can give further orders upon your arrival at 1400000060")]).
Proof.
  etrans.
  - refine
      (proj1
         (move_in_progress_reports (Scenario.engine Scenario.t0)
            (Scenario.world (Ret None)) Scenario.move_R3 (Scenario.by_pm None)
            Scenario.st_marching Scenario.R3 60
            (OtherMovementOrder Scenario.marching)
            (session Scenario.st_marching) _ _ _)
         Scenario.marching _); reflexivity.
  - vm_compute. reflexivity.
Defined.





(** C8.  An infrastructure failure (remote API error or socket timeout) of an
    outward call - a reply or the submission of a thread - is caught at the
    messaging boundary: the call returns None, a warning is logged, the
    session is left as it was and nothing is raised to the handler.  A
    confirmation that fails this way does not keep a move from being
    committed. *)
Theorem notification_failure_is_soft W st e :
  infrastructure e = true ->
  (forall reply,
      comment_reply W (trace st) reply = Raise e ->
      exists message,
        Context_reply W reply st =
        (Ret None,
         {| session := session st;
            trace := trace st ++ [EvReply reply; EvWarning message] |})) /\
  (forall srname title body,
      reddit_submit W (trace st) srname title body = Raise e ->
      exists message,
        Context_submit W srname title body st =
        (Ret None,
         {| session := session st;
            trace := trace st ++ [EvSubmit srname title body; EvWarning message] |})) /\
  (forall E self context dest speed order s1,
      lookup_region (pending (session st)) (MoveCommand.where_ self) = Some dest ->
      game (config context) !! "speed" = Some speed ->
      let amount := MoveCommand.decoded_amount self (player (pending (session st))) in
      move E amount dest speed (session st) = (Ret order, s1) ->
      comment_reply W (trace st ++ [EvMove amount dest speed])
        (MoveCommand.confirmed E amount dest order) = Raise e ->
      exists st',
        MoveCommand.execute E W self context st = (Ret tt, st') /\
        session st' =
        session_commit (with_pending (update_player (User.set_defectable false)) s1)).
Proof.
  intros He. split; [|split].
  - intros reply Hr. rewrite Context_reply_eq, Hr.
    destruct e; try discriminate He; by eexists.
  - intros srname title body Hr. rewrite Context_submit_eq, Hr.
    destruct e; try discriminate He; by eexists.
  - intros E self context dest speed order s1 Hdest Hspeed amount Hmove Hr.
    destruct (MoveCommand.execute E W self context st) as [r st'] eqn:Hrun.
    destruct (move_success_outcome E W self context st dest speed Hdest Hspeed
                _ _ _ _ Hmove Hrun) as (Hp & _ & Hc & Hraise).
    destruct r as [[]|e'].
    + exists st'. split; [done|]. specialize (Hc eq_refl).
      destruct (session st') as [p c]. cbn in *. by subst.
    + destruct (Hraise e' eq_refl) as [Hreply He']. fold amount in Hreply.
      rewrite Hr in Hreply. injection Hreply as <-. congruence.
Qed.

(** In a world where every reply times out, a reply comes back as None and
    leaves a warning. *)
Lemma notification_failure_is_soft_witness :
  exists message,
    Context_reply Scenario.world_deaf "Hello" Scenario.st0 =
    (Ret None,
     {| session := session Scenario.st0;
        trace := trace Scenario.st0 ++ [EvReply "Hello"; EvWarning message] |}).
Proof.
  refine
    (proj1 (notification_failure_is_soft Scenario.world_deaf Scenario.st0 Timeout _)
       "Hello" _); reflexivity.
Defined.



(** C10.  A skirmish command that did not arrive as a comment is refused:
    the handler replies and returns.  The session is unchanged - no
    SkirmishAction created or changed, no troops committed - and the trace
    gains the reply and at most a warning: no call into the engine, no
    fetch, no commit; the battles were not even looked up, the outcome being
    the same whatever the tables hold. *)
Theorem skirmish_by_pm_is_refused E W self context st r st' :
  Comment.was_comment (comment context) = Some false ->
  SkirmishCommand.execute E W self context st = (r, st') ->
  let refusal := "You must enter your skirmish commands in the appropriate battle post" in
  session st' = session st /\
  (exists ws, trace st' = trace st ++ EvReply refusal :: ws /\
              Forall (fun ev => is_warning ev = true) ws) /\
  (soft (comment_reply W (trace st) refusal) -> r = Ret tt) /\
  (forall d,
      SkirmishCommand.execute E W self context
        {| session := d; trace := trace st |} =
      (r, {| session := d; trace := trace st' |})).
Proof.
  intros Hpm Hrun refusal.
  rewrite (skirmish_pm_run E W self context st Hpm) in Hrun. fold refusal in Hrun.
  unfold bind in Hrun.
  destruct (Context_reply W refusal st) as [r0 st0] eqn:Hr.
  pose proof (Context_reply_frame _ _ _ _ _ Hr) as [Hs Ht].
  assert (Hst : st0 = st').
  { destruct r0; by injection Hrun as _ <-. }
  subst st0. split; [done|]. split; [done|]. split.
  - intros Hsoft. rewrite Context_reply_eq in Hr.
    destruct (comment_reply W (trace st) refusal) as [?|[]]; try done;
      injection Hr as <- _; by injection Hrun as <-.
  - intros d. rewrite (skirmish_pm_run E W self context _ Hpm). fold refusal.
    unfold bind. rewrite Context_reply_eq in Hr |- *. cbn [trace].
    destruct (comment_reply W (trace st) refusal) as [?|[]];
      injection Hr as <- <-; injection Hrun as <-; reflexivity.
Qed.

(** alice sends "attack with 10" by private message. *)
Lemma skirmish_by_pm_is_refused_witness :
  let run :=
    SkirmishCommand.execute (Scenario.engine (Scenario.t0 + 700))
      (Scenario.world (Ret None)) Scenario.attack_10 (Scenario.by_pm None)
      Scenario.st1 in
  session run.2 = session Scenario.st1.
Proof.
  intros run.
  refine
    (proj1
       (skirmish_by_pm_is_refused (Scenario.engine (Scenario.t0 + 700))
          (Scenario.world (Ret None)) Scenario.attack_10 (Scenario.by_pm None)
          Scenario.st1 run.1 run.2 _ _)); reflexivity.
Defined.

(** * Further properties of the command layer *)

(** ** Replies *)

(** A handler that only replies. *)
Lemma reply_only W reply st r st' :
  (Context_reply W reply ;; ret tt) st = (r, st') ->
  session st' = session st /\
  (exists ws, trace st' = trace st ++ EvReply reply :: ws /\
              Forall (fun ev => is_warning ev = true) ws) /\
  (soft (comment_reply W (trace st) reply) -> r = Ret tt).
Proof.
  unfold bind. rewrite Context_reply_eq.
  destruct (comment_reply W (trace st) reply) as [?|[]]; intros [= <- <-];
    (split; [done|]); (split; [|done]).
  1, 4-13: by exists [].
  - exists [EvWarning "Reddit API call failed! "]. split; [done|]. by repeat constructor.
  - exists [EvWarning "Socket timeout! "]. split; [done|]. by repeat constructor.
Qed.

Lemma warning_is_notice ev : is_warning ev = true -> is_notice ev = true.
Proof. by destruct ev. Qed.

(** A reply that raises past [failable] *)
Lemma hard_reply W reply st :
  ~ soft (comment_reply W (trace st) reply) ->
  exists e, infrastructure e = false /\
            Context_reply W reply st = (Raise e, extend st [EvReply reply]).
Proof.
  rewrite Context_reply_eq. intros Hhard.
  destruct (comment_reply W (trace st) reply) as [r|e]; [by destruct Hhard|].
  exists e. destruct e; try (by split); by destruct Hhard.
Qed.

(** X1.  [failable] catches APIException and Timeout and nothing else: its outcome
    is never one of the two; a value or another exception is passed on as it
    is; and one of the two becomes None and a warning, after the effects of
    the call. *)
Theorem failable_catches_only_infrastructure {A} (f : M (option A)) st r st' :
  f st = (r, st') ->
  (forall e, (failable f st).1 = Raise e -> infrastructure e = false) /\
  ((forall e, r = Raise e -> infrastructure e = false) -> failable f st = (r, st')) /\
  (forall e, r = Raise e -> infrastructure e = true ->
     exists message, failable f st = (Ret None, extend st' [EvWarning message])).
Proof.
  intros Hf. unfold failable, try_except. rewrite Hf.
  destruct r as [a|e].
  { split; [by intros e [=]|]. split; [done|]. by intros e [=]. }
  destruct (infrastructure e) eqn:He.
  - assert (exists message,
               match e with
               | APIException => Some (warning "Reddit API call failed! " ;; ret None)
               | Timeout => Some (warning "Socket timeout! " ;; ret None)
               | _ => None
               end = Some (@bind unit (option A) (warning message) (fun _ => ret None)))
      as [message ->] by (destruct e; try discriminate He; by eexists).
    split; [by intros e' [=]|]. split.
    + intros Hn. specialize (Hn e eq_refl). congruence.
    + intros e' _ _. by exists message.
  - assert (match e with
            | APIException => Some (warning "Reddit API call failed! " ;; ret None)
            | Timeout => Some (warning "Socket timeout! " ;; ret None)
            | _ => None
            end = @None (M (option A))) as -> by (by destruct e).
    split; [by intros e' [= <-]|]. split; [done|]. intros e' [= <-]. congruence.
Qed.

(** A fetch that raises something unexpected is not swallowed by
    [extract_subskirmish]. *)
Lemma failable_catches_only_infrastructure_witness :
  SkirmishCommand.extract_subskirmish
    {| comment_reply := fun _ _ => Ret None;
       reddit_submit := fun _ _ _ _ => Ret None;
       reddit_get_info := fun _ _ => Raise ValueError;
       clock := fun _ => 0 |}
    (Scenario.in_reply_to "t1_chatter") Scenario.B1 Scenario.st1 =
  (Raise ValueError, extend Scenario.st1 [EvGetInfo "t1_chatter"]).
Proof.
  refine
    (proj1 (proj2
       (failable_catches_only_infrastructure _ Scenario.st1 (Raise ValueError)
          (extend Scenario.st1 [EvGetInfo "t1_chatter"]) _)) _).
  - reflexivity.
  - by intros e [= <-].
Defined.

(** ** Regions, configuration and exceptions without a clause *)

Lemma get_region_unknown W where_ self_where st :
  lookup_region (pending (session st)) where_ = None ->
  get_region W where_ self_where true st =
  (Context_reply W
     ("I don't know any region or subreddit named '" +:+ self_where +:+ "'") ;;
   ret None) st.
Proof.
  unfold lookup_region, get_region. intros Hnone.
  unfold bind at 1, query_first at 1.
  destruct (List.find _ _) as [r|]; [done|].
  unfold bind at 1, query_first at 1. by rewrite Hnone.
Qed.

(** X2.  A region that is neither the name nor the subreddit of a row: the invade
    and the move command reply that they do not know it and do nothing else -
    the session is as before, nothing but the reply (and a warning if it
    failed) is added to the trace, the engine is not called. *)
Theorem unknown_region_is_refused E W context st where_ amount :
  lookup_region (pending (session st)) where_ = None ->
  let refusal := "I don't know any region or subreddit named '" +:+ where_ +:+ "'" in
  InvadeCommand.execute E W (InvadeCommand.mk where_) context st =
    (Context_reply W refusal ;; ret tt) st /\
  MoveCommand.execute E W (MoveCommand.mk amount where_) context st =
    (Context_reply W refusal ;; ret tt) st /\
  forall r st', (Context_reply W refusal ;; ret tt) st = (r, st') ->
    session st' = session st /\
    (exists ws, trace st' = trace st ++ EvReply refusal :: ws /\
                Forall (fun ev => is_warning ev = true) ws) /\
    (soft (comment_reply W (trace st) refusal) -> r = Ret tt).
Proof.
  intros Hnone refusal. split; [|split].
  - unfold InvadeCommand.execute. unfold bind at 1.
    cbn [InvadeCommand.where_]. rewrite (get_region_unknown _ _ _ _ Hnone).
    fold refusal. unfold bind.
    by destruct (Context_reply W refusal st) as [[?|?] ?].
  - unfold MoveCommand.execute. unfold bind at 1.
    cbn [MoveCommand.where_]. rewrite (get_region_unknown _ _ _ _ Hnone).
    fold refusal. unfold bind.
    by destruct (Context_reply W refusal st) as [[?|?] ?].
  - intros r st'. apply reply_only.
Qed.

(** "invade atlantis" *)
Lemma unknown_region_is_refused_witness :
  InvadeCommand.execute (Scenario.engine Scenario.t0) (Scenario.world (Ret None))
    (InvadeCommand.mk "atlantis") (Scenario.by_pm None) Scenario.st0 =
  (Ret tt,
   extend Scenario.st0
     [EvReply "I don't know any region or subreddit named 'atlantis'"]).
Proof.
  etrans.
  - refine
      (proj1
         (unknown_region_is_refused (Scenario.engine Scenario.t0)
            (Scenario.world (Ret None)) (Scenario.by_pm None) Scenario.st0
            "atlantis" 0 _)).
    reflexivity.
  - reflexivity.
Defined.

(** X3.  A configuration without the key the command needs: for a known region,
    invade without "battle_delay" and move without "speed" raise the
    KeyError; the engine is not called and the state is as before. *)
Theorem missing_configuration_raises E W context st dest :
  (forall self,
      lookup_region (pending (session st)) (InvadeCommand.where_ self) = Some dest ->
      game (config context) !! "battle_delay" = None ->
      InvadeCommand.execute E W self context st = (Raise (KeyError "battle_delay"), st)) /\
  (forall self,
      lookup_region (pending (session st)) (MoveCommand.where_ self) = Some dest ->
      game (config context) !! "speed" = None ->
      MoveCommand.execute E W self context st = (Raise (KeyError "speed"), st)).
Proof.
  split; intros self Hdest Hkey.
  - unfold InvadeCommand.execute. unfold bind at 1.
    rewrite (get_region_found _ _ _ _ _ _ Hdest).
    unfold config_game. rewrite Hkey. reflexivity.
  - unfold MoveCommand.execute. unfold bind at 1.
    rewrite (get_region_found _ _ _ _ _ _ Hdest).
    unfold config_game. rewrite Hkey. reflexivity.
Qed.

Lemma missing_configuration_raises_witness :
  MoveCommand.execute (Scenario.engine Scenario.t0) (Scenario.world (Ret None))
    Scenario.move_R3
    {| config := {| game := ∅; username := Scenario.chromabot |};
       comment := comment (Scenario.by_pm None) |}
    Scenario.st0 =
  (Raise (KeyError "speed"), Scenario.st0).
Proof.
  refine
    (proj2
       (missing_configuration_raises (Scenario.engine Scenario.t0)
          (Scenario.world (Ret None)) _ Scenario.st0 Scenario.R3)
       Scenario.move_R3 _ _); reflexivity.
Defined.

(** X4.  An exception of the engine for which the handler has no clause is raised
    to the caller of [execute] right after the call: no reply, and the
    handler changes nothing - after a failing [player.move] the defectable
    flag and the committed rows are as the engine left them. *)
Theorem unanswered_exceptions_propagate E W context st dest e s1 :
  (forall self delay,
      lookup_region (pending (session st)) (InvadeCommand.where_ self) = Some dest ->
      game (config context) !! "battle_delay" = Some delay ->
      typed_invade_failure e = false ->
      let begins := clock W (trace st) + delay in
      invade E dest begins (session st) = (Raise e, s1) ->
      InvadeCommand.execute E W self context st =
      (Raise e, after_call st (EvInvade dest begins) s1)) /\
  (forall self speed,
      lookup_region (pending (session st)) (MoveCommand.where_ self) = Some dest ->
      game (config context) !! "speed" = Some speed ->
      typed_move_failure e = false ->
      let amount := MoveCommand.decoded_amount self (player (pending (session st))) in
      move E amount dest speed (session st) = (Raise e, s1) ->
      MoveCommand.execute E W self context st =
      (Raise e, after_call st (EvMove amount dest speed) s1)).
Proof.
  split.
  - intros self delay Hdest Hdelay He begins Hinv.
    rewrite (invade_run E W self context st dest delay Hdest Hdelay _ _ Hinv).
    by destruct e.
  - intros self speed Hdest Hspeed He amount Hmove.
    rewrite (move_run E W self context st dest speed Hdest Hspeed _ _ Hmove).
    by destruct e.
Qed.

(** A move of the engine that raises RankException *)
Lemma unanswered_exceptions_propagate_witness :
  MoveCommand.execute Fixture.engine_odd (Scenario.world (Ret None)) Scenario.move_R3
    (Scenario.by_pm None) Scenario.st0 =
  (Raise RankException,
   after_call Scenario.st0 (EvMove 100 Scenario.R3 60) (session Scenario.st0)).
Proof.
  refine
    (proj2
       (unanswered_exceptions_propagate Fixture.engine_odd (Scenario.world (Ret None))
          (Scenario.by_pm None) Scenario.st0 Scenario.R3 RankException
          (session Scenario.st0))
       Scenario.move_R3 60 _ _ _ _); reflexivity.
Defined.

(** ** [InvadeCommand]: refusals and the confirmed announcement *)

Lemma update_battle_rows k f d b :
  (forall x, Battle.id (f x) = Battle.id x) ->
  b ∈ battles (update_battle k f d) -> Battle.id b = k ->
  exists b0, b0 ∈ battles d /\ Battle.id b0 = k /\ b = f b0.
Proof.
  intros Hid. unfold update_battle. cbn [battles].
  intros [b0 [-> Hin]]%list_elem_of_fmap. case_bool_decide as Hk.
  - intros _. by exists b0.
  - intros Hk'. by destruct Hk.
Qed.

(** X5.  An invasion that the engine refuses with a RankException, a
    TeamException, a NonAdjacentException or an InProgressException carrying
    the battle in progress is answered by one reply and nothing else, in
    every world: no thread is submitted, nothing is committed or rolled back,
    the session is as the engine left it; the reply to an invasion in
    progress names the region and the battle.  The handler returns normally
    unless the reply itself raises something other than an APIException or a
    Timeout. *)
Theorem invade_refusal_only_replies E W self context st dest delay e s1 r st' :
  lookup_region (pending (session st)) (InvadeCommand.where_ self) = Some dest ->
  game (config context) !! "battle_delay" = Some delay ->
  let begins := clock W (trace st) + delay in
  invade E dest begins (session st) = (Raise e, s1) ->
  typed_invade_failure e = true ->
  (forall other, e = InProgressException other -> exists b, other = OtherBattle b) ->
  InvadeCommand.execute E W self context st = (r, st') ->
  session st' = s1 /\
  exists reply ws,
    trace st' = trace st ++ EvInvade dest begins :: EvReply reply :: ws /\
    Forall (fun ev => is_warning ev = true) ws /\
    (soft (comment_reply W (trace st ++ [EvInvade dest begins]) reply) -> r = Ret tt) /\
    (forall b, e = InProgressException (OtherBattle b) ->
       reply = region_markdown E dest +:+ " is " +:+ battle_markdown E b "already" +:+
               " being invaded!").
Proof.
  intros Hdest Hdelay begins Hinv He Hother.
  rewrite (invade_run E W self context st dest delay Hdest Hdelay _ _ Hinv).
  assert (Hdone : forall reply,
             (Context_reply W reply ;; ret tt) (after_call st (EvInvade dest begins) s1)
             = (r, st') ->
             session st' = s1 /\
             exists ws,
               trace st' = trace st ++ EvInvade dest begins :: EvReply reply :: ws /\
               Forall (fun ev => is_warning ev = true) ws /\
               (soft (comment_reply W (trace st ++ [EvInvade dest begins]) reply) ->
                r = Ret tt)).
  { intros reply Hrun.
    destruct (reply_only W reply _ r st' Hrun) as (Hs & (ws & Ht & Hws) & Hr).
    split; [done|]. exists ws. split; [|split; [done | exact Hr]].
    rewrite Ht. cbn. by rewrite <- app_assoc. }
  destruct e; try discriminate He; cbn [InvadeCommand.refuse].
  - intros Hrun. destruct (Hdone _ Hrun) as (Hs & ws & Ht & Hws & Hr).
    split; [done|]. eexists _, ws. split; [exact Ht|]. split; [done|]. by split.
  - intros Hrun. destruct (Hdone _ Hrun) as (Hs & ws & Ht & Hws & Hr).
    split; [done|]. eexists _, ws. split; [exact Ht|]. split; [done|]. by split.
  - intros Hrun. destruct (Hdone _ Hrun) as (Hs & ws & Ht & Hws & Hr).
    split; [done|]. eexists _, ws. split; [exact Ht|]. split; [done|]. by split.
  - destruct (Hother other eq_refl) as [b ->].
    unfold bind at 1. cbn [other_markdown ret]. intros Hrun.
    destruct (Hdone _ Hrun) as (Hs & ws & Ht & Hws & Hr).
    split; [done|]. eexists _, ws. split; [exact Ht|]. split; [done|].
    split; [exact Hr|]. by intros b' [= <-].
Qed.

(** Nobody has the authority to invade: alice is told so, and the session
    stays as it was. *)
Lemma invade_refusal_only_replies_witness :
  session
    (InvadeCommand.execute Fixture.engine_no_rank (Scenario.world (Ret None))
       Scenario.invade_R2 (Scenario.by_pm None) Scenario.st0).2
  = session Scenario.st0.
Proof.
  assert (Hother : forall other,
             RankException = InProgressException other -> exists b, other = OtherBattle b)
    by (by intros other [=]).
  exact
    (proj1
       (invade_refusal_only_replies Fixture.engine_no_rank (Scenario.world (Ret None))
          Scenario.invade_R2 (Scenario.by_pm None) Scenario.st0 Scenario.R2 600
          RankException (session Scenario.st0) _ _ eq_refl eq_refl eq_refl eq_refl Hother
          (surjective_pairing _))).
Defined.

(** X6.  An invasion that succeeds and whose thread is confirmed: the handler
    returns normally, what it leaves is committed, and every row of the
    invaded battle carries the name of the submitted thread - and the
    configured lockout, if there is one. *)
Theorem invade_confirmed_links_thread E W self context st dest delay battle s1 submitted :
  lookup_region (pending (session st)) (InvadeCommand.where_ self) = Some dest ->
  game (config context) !! "battle_delay" = Some delay ->
  invade E dest (clock W (trace st) + delay) (session st) = (Ret battle, s1) ->
  replies_softly W ->
  (forall tr title body,
      reddit_submit W tr (Region.srname dest) title body = Ret (Some submitted)) ->
  exists st',
    InvadeCommand.execute E W self context st = (Ret tt, st') /\
    committed (session st') = pending (session st') /\
    last (trace st') = Some EvCommit /\
    forall b, b ∈ battles (committed (session st')) -> Battle.id b = Battle.id battle ->
      Battle.submission_id b = Some (Thing.name submitted) /\
      forall lockout, game (config context) !! "battle_lockout" = Some lockout ->
                      Battle.lockout b = lockout.
Proof.
  intros Hdest Hdelay Hinv Hsoft Hsubmit.
  rewrite (invade_run E W self context st dest delay Hdest Hdelay _ _ Hinv).
  assert (Hann : forall b0 sta,
             exists evs,
               InvadeCommand.announce E W dest b0 sta =
               (Ret tt,
                {| session :=
                     session_commit
                       (with_pending
                          (update_battle (Battle.id b0)
                             (Battle.set_submission_id (Thing.name submitted)))
                          (session sta));
                   trace := trace sta ++ evs ++ [EvCommit] |})).
  { intros b0 sta. unfold InvadeCommand.announce.
    destruct (soft_reply W ("**Confirmed**  Battle will begin at " +:+ begins_str E b0)
                sta (Hsoft _ _)) as (r & ws & Hr & _).
    unfold bind at 1. rewrite Hr. unfold bind at 1, get_player at 1.
    unfold bind at 1. rewrite Context_submit_eq, Hsubmit.
    unfold commit, bind, emit, modify_session. cbn.
    eexists (_ :: ws ++ [_]). do 2 f_equal.
    by repeat first [rewrite <- app_assoc | progress (cbn [app])]. }
  destruct (game (config context) !! "battle_lockout") as [lockout|] eqn:Hl.
  - destruct (Hann (Battle.set_lockout lockout battle)
                {| session :=
                     session_commit
                       (with_pending
                          (update_battle (Battle.id battle) (Battle.set_lockout lockout)) s1);
                   trace := trace (after_call st (EvInvade dest (clock W (trace st) + delay)) s1)
                            ++ [EvCommit] |}) as [evs ->].
    eexists. split; [reflexivity|]. split; [reflexivity|]. split.
    { cbn [trace]. by rewrite !app_assoc, last_snoc. }
    cbn [session committed pending session_commit with_pending]. intros b Hb Hid.
    apply (update_battle_rows (Battle.id battle)
             (Battle.set_submission_id (Thing.name submitted)) _ b (fun x => eq_refl))
      in Hb as (b1 & Hb1 & Hid1 & ->); [|done].
    apply (update_battle_rows (Battle.id battle) (Battle.set_lockout lockout) _ b1
             (fun x => eq_refl)) in Hb1 as (b2 & _ & _ & ->); [|done].
    split; [done|]. by intros ? [= <-].
  - destruct (Hann battle (after_call st (EvInvade dest (clock W (trace st) + delay)) s1))
      as [evs ->].
    eexists. split; [reflexivity|]. split; [reflexivity|]. split.
    { cbn [trace]. by rewrite !app_assoc, last_snoc. }
    cbn [session committed pending session_commit with_pending]. intros b Hb Hid.
    apply (update_battle_rows (Battle.id battle)
             (Battle.set_submission_id (Thing.name submitted)) _ b (fun x => eq_refl))
      in Hb as (b1 & _ & _ & ->); [|done].
    split; [done|]. by intros ? [=].
Qed.

(** The scenario of the specification with a lockout of 300 seconds *)
Lemma invade_confirmed_links_thread_witness :
  battles
    (committed
       (session
          (InvadeCommand.execute (Scenario.engine Scenario.t0) Fixture.world_fine
             Scenario.invade_R2 (Scenario.by_pm (Some 300)) Scenario.st0).2)) =
  [Battle.mk 1 Scenario.R2 (Scenario.t0 + 600) 300 (Some "t3_battle") false].
Proof.
  assert (Hsoft : replies_softly Fixture.world_fine) by (by intros tr reply).
  destruct
    (invade_confirmed_links_thread (Scenario.engine Scenario.t0) Fixture.world_fine
       Scenario.invade_R2 (Scenario.by_pm (Some 300)) Scenario.st0 Scenario.R2 600
       (Battle.mk 1 Scenario.R2 (Scenario.t0 + 600) 0 None false)
       (SpecEngine.invade User.leader Scenario.R2 (Scenario.t0 + 600)
          (session Scenario.st0)).2
       Scenario.thread eq_refl eq_refl eq_refl Hsoft (fun _ _ _ => eq_refl))
    as (st' & Hrun & _).
  vm_compute. reflexivity.
Defined.

(** ** [MoveCommand.__init__] and [SkirmishCommand.__init__] *)

Lemma uint_of_char_no_digit a d : is_digit a = false -> uint_of_char a d = None.
Proof.
  destruct d as [d|]; [|done].
  destruct a as [[] [] [] [] [] [] [] []]; cbn; done.
Qed.

Lemma Forall_lstrip (P : ascii -> Prop) l : Forall P l -> Forall P (lstrip l).
Proof.
  induction 1 as [|c l Hc Hl IH]; [done|]. cbn.
  destruct (is_space c); [done | by constructor].
Qed.

Lemma Forall_strip (P : ascii -> Prop) l : Forall P l -> Forall P (strip l).
Proof.
  intros Hl. unfold strip. by apply List.Forall_rev, Forall_lstrip, List.Forall_rev, Forall_lstrip.
Qed.

Lemma uint_no_digit l :
  Forall (fun c => is_digit c = false) l -> NilZero.uint_of_string (text l) = None.
Proof.
  destruct 1 as [|c l Hc _]; [done|].
  change (text (c :: l)) with (String c (text l)).
  cbn [NilZero.uint_of_string NilEmpty.uint_of_string].
  by rewrite uint_of_char_no_digit.
Qed.

(** [int] of a text without a digit is a ValueError. *)
Lemma py_int_no_digit a :
  Forall (fun c => is_digit c = false) (chars a) -> py_int a = None.
Proof.
  intros Hall. apply Forall_strip in Hall. unfold py_int.
  destruct (strip (chars a)) as [|c ds]; [done|].
  inversion Hall as [|? ? Hc Hds]; subst.
  destruct (c =? "+")%char; [by rewrite (uint_no_digit ds Hds)|].
  unfold py_decimal. change (text (c :: ds)) with (String c (text ds)).
  cbn [NilZero.int_of_string]. destruct (c =? "-")%char.
  - by rewrite (uint_no_digit ds Hds).
  - cbn [NilZero.uint_of_string NilEmpty.uint_of_string].
    by rewrite uint_of_char_no_digit.
Qed.

Lemma lstrip_spaces pad l :
  Forall (fun c => is_space c = true) pad -> lstrip (pad ++ l) = lstrip l.
Proof. induction 1 as [|c pad Hc _ IH]; [done|]. cbn. by rewrite Hc. Qed.

(** [strip] drops the white space around a text that has none inside. *)
Lemma strip_padded pad1 l pad2 :
  Forall (fun c => is_space c = true) pad1 ->
  Forall (fun c => is_space c = false) l ->
  Forall (fun c => is_space c = true) pad2 ->
  strip (pad1 ++ l ++ pad2) = l.
Proof.
  intros H1 Hl H2. unfold strip. rewrite (lstrip_spaces pad1 _ H1).
  destruct l as [|c l].
  - cbn [app]. assert (lstrip pad2 = []) as ->.
    { rewrite <- (app_nil_r pad2). by rewrite (lstrip_spaces pad2 [] H2). }
    done.
  - assert (lstrip ((c :: l) ++ pad2) = (c :: l) ++ pad2) as ->.
    { inversion Hl as [|? ? Hc _]; subst. cbn. by rewrite Hc. }
    rewrite rev_app_distr.
    rewrite (lstrip_spaces (rev pad2)) by (by apply List.Forall_rev).
    rewrite (lstrip_id (rev (c :: l))) by (by apply List.Forall_rev).
    apply rev_involutive.
Qed.

Lemma fmt_d_no_space z : Forall (fun c => is_space c = false) (chars (fmt_d z)).
Proof.
  apply Forall_forall. intros c Hc. apply digit_no_space. by apply (fmt_d_chars z).
Qed.

Lemma fmt_d_nonempty z : chars (fmt_d z) <> [].
Proof.
  unfold fmt_d. destruct z as [|p|p]; [done| |done].
  cbn [Z.to_int NilZero.string_of_int]. unfold NilZero.string_of_uint.
  pose proof (DecimalPos.Unsigned.to_uint_nonnil p) as Hnil.
  by destruct (Pos.to_uint p).
Qed.

(** [int] reads a number through the white space around it, also with a plus
    sign in front if the number is not negative. *)
Lemma py_int_padded pad1 sign z pad2 :
  Forall (fun c => is_space c = true) pad1 ->
  Forall (fun c => is_space c = true) pad2 ->
  sign = [] \/ (sign = ["+"%char] /\ 0 <= z) ->
  py_int (text (pad1 ++ (sign ++ chars (fmt_d z)) ++ pad2)) = Some z.
Proof.
  intros H1 H2 Hsign. unfold py_int. rewrite chars_text.
  pose proof (fmt_d_no_space z) as Hz. pose proof (py_int_fmt_d z) as Hint.
  destruct Hsign as [-> | [-> Hpos]].
  - cbn [app]. rewrite (strip_padded pad1 _ pad2 H1 Hz H2).
    revert Hint. unfold py_int. rewrite (strip_id _ Hz). done.
  - rewrite (strip_padded pad1 (["+"%char] ++ chars (fmt_d z)) pad2 H1 ltac:(by constructor) H2).
    cbn [app]. cbv beta iota. change ("+" =? "+")%char with true. cbv iota.
    rewrite text_chars.
    rewrite py_int_plain in Hint.
    2: { intros Heq. apply (fmt_d_nonempty z). by rewrite Heq. }
    2: { apply Forall_forall. intros c Hc. by apply (fmt_d_chars z). }
    revert Hint. unfold py_decimal, NilZero.int_of_string.
    destruct (fmt_d_digits z Hpos) as [Hd Hne].
    destruct (fmt_d z) as [|c rest] eqn:Hf; [done|].
    assert ((c =? "-")%char = false) as ->.
    { apply Ascii.eqb_neq. intros ->. by inversion Hd. }
    done.
Qed.

(** X7.  The tokens of a move: the amount is read back as the number that was
    written, also through white space around it and a plus sign in front of
    it, and the region is put in lower case; an amount without a digit is a
    ValueError, whether or not a region is given; without a region the
    command cannot be built. *)
Theorem move_init_reads_tokens (tokens : gmap string string) :
  (forall n w, tokens !! "amount" = Some (fmt_d n) -> tokens !! "where" = Some w ->
     MoveCommand.init tokens = Ret (MoveCommand.mk n (lower w))) /\
  (forall n w pad1 sign pad2,
     Forall (fun c => is_space c = true) pad1 ->
     Forall (fun c => is_space c = true) pad2 ->
     sign = [] \/ (sign = ["+"%char] /\ 0 <= n) ->
     tokens !! "amount" = Some (text (pad1 ++ (sign ++ chars (fmt_d n)) ++ pad2)) ->
     tokens !! "where" = Some w ->
     MoveCommand.init tokens = Ret (MoveCommand.mk n (lower w))) /\
  (forall a, tokens !! "amount" = Some a ->
     Forall (fun c => is_digit c = false) (chars a) ->
     MoveCommand.init tokens = Raise ValueError) /\
  (tokens !! "where" = None -> forall self, MoveCommand.init tokens <> Ret self).
Proof.
  unfold MoveCommand.init. split; [|split; [|split]].
  - intros n w -> ->. by rewrite py_int_fmt_d.
  - intros n w pad1 sign pad2 H1 H2 Hsign -> ->.
    by rewrite (py_int_padded pad1 sign n pad2 H1 H2 Hsign).
  - intros a -> Ha. by rewrite (py_int_no_digit a Ha).
  - intros ->. destruct (tokens !! "amount") as [a|]; [|done].
    by destruct (py_int a).
Qed.

(** "move  +25 sapphire", the amount with a space on either side *)
Lemma move_init_reads_tokens_witness :
  MoveCommand.init (list_to_map [("amount", " +25 "); ("where", "Sapphire")]) =
  Ret (MoveCommand.mk 25 "sapphire").
Proof.
  refine
    (proj1 (proj2
       (move_init_reads_tokens (list_to_map [("amount", " +25 "); ("where", "Sapphire")])))
       25 "Sapphire" [" "%char] ["+"%char] [" "%char] _ _ _ _ _).
  - by repeat constructor.
  - by repeat constructor.
  - right. split; [reflexivity | lia].
  - reflexivity.
  - reflexivity.
Defined.

(** X8.  The sentinel is no amount of its own: a move command built from the
    amount -1 is the command built without an amount, so it moves
    everyone. *)
Theorem move_minus_one_is_everyone (tokens : gmap string string) :
  MoveCommand.init (<[ "amount" := "-1" ]> tokens) =
  MoveCommand.init (delete "amount" tokens).
Proof.
  unfold MoveCommand.init.
  rewrite lookup_insert_eq, lookup_delete_eq.
  rewrite lookup_insert_ne, lookup_delete_ne by done. reflexivity.
Qed.

(** X9.  What [SkirmishCommand.__init__] never leaves in a command: the action
    'oppose' (it becomes 'attack') and the misspellings (they become the
    troop type they stand for, in the action as well); without a troop type
    the troops are infantry. *)
Theorem skirmish_init_normalises (tokens : gmap string string) self :
  SkirmishCommand.init tokens = Ret self ->
  (SkirmishCommand.action self ∉ ["oppose"; "calvalry"; "calvary"; "range"]) /\
  (SkirmishCommand.troop_type self ∉ ["calvalry"; "calvary"; "range"]) /\
  (tokens !! "troop_type" = None -> SkirmishCommand.troop_type self = "infantry") /\
  (tokens !! "action" = Some "oppose" -> SkirmishCommand.action self = "attack").
Proof.
  assert (Halias : forall a : string,
             default a (SkirmishCommand.ALIASES !! a) ∉ ["calvalry"; "calvary"; "range"]).
  { intros a. unfold SkirmishCommand.ALIASES. cbn [list_to_map foldr uncurry].
    destruct (decide (a = "calvalry")) as [->|H1]; [compute_done|].
    destruct (decide (a = "calvary")) as [->|H2]; [compute_done|].
    destruct (decide (a = "range")) as [->|H3]; [compute_done|].
    rewrite !lookup_insert_ne, lookup_empty by done. cbn [default].
    rewrite !not_elem_of_cons. repeat split; try done. apply not_elem_of_nil. }
  unfold SkirmishCommand.init.
  destruct (tokens !! "action") as [a|] eqn:Ha; [|done].
  destruct (tokens !! "amount") as [n|]; [|done].
  destruct (py_int n) as [amount|]; [|done].
  intros [= <-]. cbn [SkirmishCommand.action SkirmishCommand.troop_type].
  split; [|split; [|split]].
  - case_bool_decide as Ho; [compute_done|].
    apply not_elem_of_cons. split; [done | apply Halias].
  - destruct (tokens !! "troop_type") as [ty|]; [apply Halias | compute_done].
  - by intros ->.
  - intros [= ->]. reflexivity.
Qed.

Lemma skirmish_init_normalises_witness :
  SkirmishCommand.action
    (SkirmishCommand.mk "attack" 10 "cavalry") ∉ ["oppose"; "calvalry"; "calvary"; "range"].
Proof.
  refine
    (proj1
       (skirmish_init_normalises
          (list_to_map [("action", "oppose"); ("amount", "+10"); ("troop_type", "calvary")])
          (SkirmishCommand.mk "attack" 10 "cavalry") _)).
  reflexivity.
Defined.

(** ** What a program adds to the trace *)

Lemma emits_ret {A} P (a : A) : emits P (ret a).
Proof. intros st r st' [= <- <-]. exists []. by rewrite app_nil_r. Qed.

Lemma emits_raise {A} P e : emits P (@raise A e).
Proof. intros st r st' [= <- <-]. exists []. by rewrite app_nil_r. Qed.

Lemma emits_pure {A} P (f : HState -> Result A) : emits P (fun st => (f st, st)).
Proof. intros st r st' [= <- <-]. exists []. by rewrite app_nil_r. Qed.

Lemma emits_bind {A B} P (m : M A) (k : A -> M B) :
  emits P m -> (forall a, emits P (k a)) -> emits P (bind m k).
Proof.
  intros Hm Hk st r st'. unfold bind.
  destruct (m st) as [[a|e] st1] eqn:E1.
  - intros E2. destruct (Hm _ _ _ E1) as (evs1 & H1 & F1), (Hk _ _ _ _ E2) as (evs2 & H2 & F2).
    exists (evs1 ++ evs2). split; [by rewrite H2, H1, app_assoc | by apply Forall_app].
  - intros [= <- <-]. eauto.
Qed.

Lemma emits_try_except {A} P (body : M A) handler :
  emits P body -> (forall e h, handler e = Some h -> emits P h) ->
  emits P (try_except body handler).
Proof.
  intros Hb Hh st r st'. unfold try_except.
  destruct (body st) as [[a|e] st1] eqn:E1.
  - intros [= <- <-]. eauto.
  - destruct (handler e) as [h|] eqn:Eh.
    + intros E2.
      destruct (Hb _ _ _ E1) as (evs1 & H1 & F1), (Hh _ _ Eh _ _ _ E2) as (evs2 & H2 & F2).
      exists (evs1 ++ evs2). split; [by rewrite H2, H1, app_assoc | by apply Forall_app].
    + intros [= <- <-]. eauto.
Qed.

Lemma emits_emit (P : Event -> Prop) ev : P ev -> emits P (emit ev).
Proof. intros HP st r st' [= <- <-]. exists [ev]. split; [done | by constructor]. Qed.

Lemma emits_modify_session P f : emits P (modify_session f).
Proof. intros st r st' [= <- <-]. exists []. cbn. by rewrite app_nil_r. Qed.

Lemma emits_remote {A} (P : Event -> Prop) ev (answer : list Event -> Result A) :
  P ev -> emits P (remote ev answer).
Proof. intros HP st r st' [= <- <-]. exists [ev]. split; [done | by constructor]. Qed.

Lemma emits_engine {A} (P : Event -> Prop) ev (op : Session -> Result A * Session) :
  P ev -> emits P (engine ev op).
Proof.
  intros HP st r st'. unfold engine. destruct (op (session st)).
  intros [= <- <-]. exists [ev]. split; [done | by constructor].
Qed.

Lemma emits_failable {A} (P : Event -> Prop) (f : M (option A)) :
  (forall message, P (EvWarning message)) -> emits P f -> emits P (failable f).
Proof.
  intros HP Hf. apply emits_try_except; [done|].
  intros [] h [= <-]; (apply emits_bind; [by apply emits_emit | intros _; apply emits_ret]).
Qed.


Lemma emits_commit (P : Event -> Prop) : P EvCommit -> emits P commit.
Proof.
  intros HP. apply emits_bind; [by apply emits_emit | intros _; apply emits_modify_session].
Qed.

Lemma emits_weaken {A} (P Q : Event -> Prop) (m : M A) :
  (forall ev, P ev -> Q ev) -> emits P m -> emits Q m.
Proof.
  intros HPQ Hm st r st' Hrun. destruct (Hm _ _ _ Hrun) as (evs & Ht & HF).
  exists evs. split; [done|]. by eapply Forall_impl.
Qed.

(** ** [SkirmishCommand.execute] *)

Lemma confirm_soft E W context skirmish st :
  soft (comment_reply W (trace st) (SkirmishCommand.confirmation_for E skirmish (session st))) ->
  exists ws,
    SkirmishCommand.confirm E W context skirmish st =
    (Ret tt,
     {| session := link_skirmish skirmish (Comment.name (comment context)) (session st);
        trace := trace st ++ EvReply (SkirmishCommand.confirmation_for E skirmish (session st))
                   :: ws ++ [EvCommit] |}) /\
    Forall (fun ev => is_warning ev = true) ws.
Proof.
  intros Hsoft. unfold SkirmishCommand.confirm, bind at 1, get_session at 1.
  destruct (soft_reply W (SkirmishCommand.confirmation_for E skirmish (session st)) st
              Hsoft) as (r & ws & Hr & Hws).
  exists ws. split; [|done]. unfold bind at 1. rewrite Hr.
  unfold commit, bind, emit, modify_session, link_skirmish. cbn.
  do 2 f_equal. by repeat first [rewrite <- app_assoc | progress (cbn [app])].
Qed.

(** A confirmation that raises past [failable] ends [confirm] at once. *)
Lemma confirm_hard E W context skirmish st :
  ~ soft (comment_reply W (trace st)
            (SkirmishCommand.confirmation_for E skirmish (session st))) ->
  exists e,
    SkirmishCommand.confirm E W context skirmish st =
    (Raise e,
     extend st [EvReply (SkirmishCommand.confirmation_for E skirmish (session st))]).
Proof.
  intros Hhard. unfold SkirmishCommand.confirm, bind at 1, get_session at 1.
  destruct (hard_reply W _ st Hhard) as (e & _ & Hr).
  exists e. unfold bind at 1. by rewrite Hr.
Qed.

(** Every clause for a typed failure is one reply. *)
Lemma skirmish_clause_reply E W current e st :
  typed_skirmish_failure e = true ->
  exists clause reply,
    skirmish_clauses E W current e = Some clause /\
    clause st = (Context_reply W reply ;; ret tt) st /\
    (forall requested available,
        e = InsufficientException requested available -> requested <= 0 ->
        reply = "You must use at least 1 troop!") /\
    (forall side, e = TimingException side -> side <> "late" ->
                  reply = "The battle has not yet begun!") /\
    (e = TimingException "late" ->
     reply = "Top-level attacks are disallowed in the last " +:+
             fmt_d (Battle.lockout current) +:+ " seconds of a battle") /\
    (forall friendly, e = TeamException friendly ->
        reply = if friendly then "You cannot attack someone on your team"
                else "You cannot aid the enemy!").
Proof.
  intros He. destruct e; try discriminate He; cbn [skirmish_clauses].
  - destruct friendly.
    + eexists _, "You cannot attack someone on your team".
      split; [done|]. split; [done|]. repeat split; try done. by intros ? [= <-].
    + eexists _, "You cannot aid the enemy!".
      split; [done|]. split; [done|]. repeat split; try done. by intros ? [= <-].
  - eexists _, _. split; [done|]. split; [reflexivity|]. by repeat split.
  - case_bool_decide as Hreq.
    + eexists _, "You must use at least 1 troop!".
      split; [done|]. split; [done|]. by repeat split.
    + eexists _, ("You don't have " +:+ fmt_d requested +:+ " troops to spare! " +:+
                  "(you have committed " +:+
                  fmt_d (User.committed_loyalists (player (pending (session st)))) +:+
                  " total)").
      split; [done|]. split; [done|]. repeat split; try done.
      intros ?? [= <- _] ?. lia.
  - eexists _, (("Your armies are currently in " +:+ region_markdown E actually_am +:+
                 " and thus cannot " +:+ "participate in this battle.") +:+
                match is_moving E (session st) with
                | Some moving =>
                    NL +:+ NL +:+ "(Your forces will arrive in " +:+
                    region_markdown E (MovementOrder.dest moving) +:+
                    " at " +:+ arrival_str E moving +:+ " )"
                | None => EmptyString
                end).
    split; [done|]. split; [done|]. by repeat split.
  - case_bool_decide as Hside.
    + eexists _, ("Top-level attacks are disallowed in the last " +:+
                  fmt_d (Battle.lockout current) +:+ " seconds of a battle").
      split; [done|]. split; [done|]. repeat split; try done. by intros ? [= <-] ?.
    + eexists _, "The battle has not yet begun!".
      split; [done|]. split; [done|]. repeat split; try done. intros [= ->]. done.
Qed.

(** A clause changes no row and adds a reply and at most a warning. *)
Lemma skirmish_clauses_frame E W current e clause st r st' :
  skirmish_clauses E W current e = Some clause ->
  clause st = (r, st') ->
  session st' = session st /\
  exists evs, trace st' = trace st ++ evs /\ Forall (fun ev => is_notice ev = true) evs.
Proof.
  intros Hclause Hrun.
  assert (He : typed_skirmish_failure e = true) by (by destruct e).
  destruct (skirmish_clause_reply E W current e st He) as (clause' & reply & Hc & Heq & _).
  rewrite Hclause in Hc. injection Hc as <-. rewrite Heq in Hrun.
  destruct (reply_only W reply st r st' Hrun) as (Hs & (ws & Ht & Hws) & _).
  split; [done|]. exists (EvReply reply :: ws). split; [done|].
  constructor; [done|]. eapply Forall_impl; [exact Hws|]. apply warning_is_notice.
Qed.



Section Skirmish.
Variables (E : Engine) (W : World) (self : SkirmishCommand.t) (context : Context).
Variables (st : HState) (current : Battle.t).

Hypothesis in_thread : SkirmishCommand.getattr_was_comment (comment context) = true.
Hypothesis battle_found :
  battle_of_thread (pending (session st)) (Comment.link_id (comment context))
  = Some current.

(** A top-level comment: [execute] up to the return of [create_skirmish]. *)
Lemma skirmish_top_run res s1 :
  Comment.link_id (comment context) = Comment.parent_id (comment context) ->
  create_skirmish E current (SkirmishCommand.amount self)
    (SkirmishCommand.troop_type self) (session st) = (res, s1) ->
  let st1 :=
    after_call st
      (EvCreateSkirmish current (SkirmishCommand.amount self)
         (SkirmishCommand.troop_type self)) s1 in
  SkirmishCommand.execute E W self context st =
  match res with
  | Ret skirmish =>
      try_except (SkirmishCommand.confirm E W context skirmish)
        (skirmish_clauses E W current) st1
  | Raise e =>
      match skirmish_clauses E W current e with
      | Some clause => clause st1
      | None => (Raise e, st1)
      end
  end.
Proof.
  intros Htop Hcreate st1. unfold SkirmishCommand.execute. rewrite in_thread.
  cbn [negb]. unfold bind at 1, query_first at 1.
  fold (battle_of_thread (pending (session st)) (Comment.link_id (comment context))).
  rewrite battle_found. rewrite bool_decide_eq_true_2 by done.
  unfold try_except at 1, bind at 1, bind at 1, engine at 1. rewrite Hcreate.
  destruct res; reflexivity.
Qed.


(** A reply to a comment whose parent cannot be resolved. *)
Lemma skirmish_unresolved_run st0 :
  Comment.link_id (comment context) <> Comment.parent_id (comment context) ->
  SkirmishCommand.resolve_parent W context current st = (Ret None, st0) ->
  SkirmishCommand.execute E W self context st =
  try_except
    (Context_reply W
       ("You can only use skirmish commands in reply to other confirmed skirmish commands") ;;
     ret tt)
    (skirmish_clauses E W current) st0.
Proof.
  intros Htop Hres. unfold SkirmishCommand.execute. rewrite in_thread.
  cbn [negb]. unfold bind at 1, query_first at 1.
  fold (battle_of_thread (pending (session st)) (Comment.link_id (comment context))).
  rewrite battle_found. rewrite bool_decide_eq_false_2 by done.
  unfold try_except, bind. rewrite Hres.
  by destruct (Context_reply W _ st0) as [[?|?] ?].
Qed.
End Skirmish.

(** X10.  A comment in a thread that belongs to no battle: one reply, nothing
    else. *)
Theorem skirmish_without_battle_is_refused E W self context st r st' :
  SkirmishCommand.getattr_was_comment (comment context) = true ->
  battle_of_thread (pending (session st)) (Comment.link_id (comment context)) = None ->
  SkirmishCommand.execute E W self context st = (r, st') ->
  session st' = session st /\
  (exists ws, trace st' = trace st ++ EvReply "There's no battle happening here!" :: ws /\
              Forall (fun ev => is_warning ev = true) ws) /\
  (soft (comment_reply W (trace st) "There's no battle happening here!") -> r = Ret tt).
Proof.
  intros Hin Hnone. unfold SkirmishCommand.execute. rewrite Hin. cbn [negb].
  unfold bind at 1, query_first at 1.
  fold (battle_of_thread (pending (session st)) (Comment.link_id (comment context))).
  rewrite Hnone. apply reply_only.
Qed.

(** alice attacks under a thread that announces nothing. *)
Lemma skirmish_without_battle_is_refused_witness :
  session
    (SkirmishCommand.execute (Scenario.engine Scenario.t0) (Scenario.world (Ret None))
       Scenario.attack_10 (Scenario.in_reply_to "t3_battle") Scenario.st0).2
  = session Scenario.st0.
Proof.
  exact
    (proj1
       (skirmish_without_battle_is_refused (Scenario.engine Scenario.t0)
          (Scenario.world (Ret None)) Scenario.attack_10
          (Scenario.in_reply_to "t3_battle") Scenario.st0 _ _ eq_refl eq_refl
          (surjective_pairing _))).
Defined.

Lemma linked_rows name k rows row :
  Forall (fun s => SkirmishAction.comment_id s <> Some name) rows ->
  List.find (fun s => bool_decide (SkirmishAction.comment_id s = Some name))
    ((fun s => if bool_decide (SkirmishAction.id s = k)
               then SkirmishAction.set_comment_id name s else s) <$> rows) = Some row ->
  SkirmishAction.id row = k.
Proof.
  induction 1 as [|s rows Hs _ IH]; [done|]. cbn.
  destruct (bool_decide (SkirmishAction.id s = k)) eqn:Hk.
  - cbn. rewrite bool_decide_eq_true_2 by done. intros [= <-].
    by apply bool_decide_eq_true_1 in Hk.
  - rewrite bool_decide_eq_false_2 by done. exact IH.
Qed.

Lemma linked_found name k rows skirmish :
  skirmish ∈ rows -> SkirmishAction.id skirmish = k ->
  is_Some
    (List.find (fun s => bool_decide (SkirmishAction.comment_id s = Some name))
       ((fun s => if bool_decide (SkirmishAction.id s = k)
                  then SkirmishAction.set_comment_id name s else s) <$> rows)).
Proof.
  intros Hin Hk. induction Hin as [s rows|s0 s rows _ IH]; cbn.
  - rewrite (bool_decide_eq_true_2 _ Hk). cbn. by rewrite bool_decide_eq_true_2.
  - destruct (bool_decide (SkirmishAction.comment_id _ = Some name)); [eauto | exact (IH Hk)].
Qed.

(** X11.  A top-level skirmish that the engine creates.  When the
    confirmation is delivered, or fails with an APIException or a Timeout,
    the handler links the row to the comment, commits and returns; from then
    on a reply to that comment finds the skirmish by the name of the
    comment - provided the engine put the row into the session and the
    comment is a new one.  When the confirmation raises anything else, the
    row is not linked and nothing is committed: the session is as the engine
    left it. *)
Theorem skirmish_top_level_is_linked E W self context st current skirmish s1 r st' :
  SkirmishCommand.getattr_was_comment (comment context) = true ->
  battle_of_thread (pending (session st)) (Comment.link_id (comment context))
  = Some current ->
  Comment.link_id (comment context) = Comment.parent_id (comment context) ->
  create_skirmish E current (SkirmishCommand.amount self)
    (SkirmishCommand.troop_type self) (session st) = (Ret skirmish, s1) ->
  SkirmishCommand.execute E W self context st = (r, st') ->
  let name := Comment.name (comment context) in
  let created :=
    EvCreateSkirmish current (SkirmishCommand.amount self)
      (SkirmishCommand.troop_type self) in
  let confirmation := SkirmishCommand.confirmation_for E skirmish s1 in
  (soft (comment_reply W (trace st ++ [created]) confirmation) ->
   r = Ret tt /\
   session st' = link_skirmish skirmish name s1 /\
   (exists ws,
       trace st' = trace st ++ created :: EvReply confirmation :: ws ++ [EvCommit] /\
       Forall (fun ev => is_warning ev = true) ws) /\
   (skirmish ∈ skirmishes (pending s1) ->
    Forall (fun s => SkirmishAction.comment_id s <> Some name) (skirmishes (pending s1)) ->
    exists row,
      skirmish_named (committed (session st')) name = Some row /\
      SkirmishAction.id row = SkirmishAction.id skirmish)) /\
  (~ soft (comment_reply W (trace st ++ [created]) confirmation) ->
   session st' = s1 /\
   exists evs,
     trace st' = trace st ++ created :: EvReply confirmation :: evs /\
     Forall (fun ev => is_notice ev = true) evs).
Proof.
  intros Hin Hbattle Htop Hcreate.
  rewrite (skirmish_top_run E W self context st current Hin Hbattle _ _ Htop Hcreate).
  intros Hrun name created confirmation. split.
  - intros Hsoft.
    destruct (confirm_soft E W context skirmish (after_call st created s1) Hsoft)
      as (ws & Hconfirm & Hws).
    unfold try_except in Hrun. fold created in Hrun. rewrite Hconfirm in Hrun.
    injection Hrun as <- <-. cbn [session trace after_call].
    split; [done|]. split; [done|]. split.
    + exists ws. split; [|done]. by rewrite <- app_assoc.
    + intros Hrow Hnew. unfold skirmish_named, link_skirmish.
      cbn [committed session_commit pending with_pending update_skirmish skirmishes].
      destruct (linked_found name (SkirmishAction.id skirmish) _ skirmish Hrow eq_refl)
        as [row Hfind].
      exists row. split; [exact Hfind|]. by eapply linked_rows.
  - intros Hhard.
    destruct (confirm_hard E W context skirmish (after_call st created s1) Hhard)
      as (e & Hconfirm).
    unfold try_except in Hrun. fold created in Hrun. rewrite Hconfirm in Hrun.
    destruct (skirmish_clauses E W current e) as [clause|] eqn:Hclause.
    + destruct (skirmish_clauses_frame E W current e clause _ r st' Hclause Hrun)
        as (Hs & evs & Ht & Hevs).
      split; [exact Hs|]. exists evs. split; [|done].
      rewrite Ht. cbn. by rewrite <- !app_assoc.
    + injection Hrun as <- <-. split; [done|]. exists []. split; [|done].
      cbn. by rewrite <- app_assoc.
Qed.

(** alice opens a skirmish of her own in the battle for R2; bob's reply to
    her comment will find it. *)
Lemma skirmish_top_level_is_linked_witness :
  SkirmishAction.id <$>
    skirmish_named
      (committed
         (session
            (SkirmishCommand.execute (Scenario.engine (Scenario.t0 + 700))
               (Scenario.world (Ret None)) Scenario.attack_10
               (Scenario.in_reply_to "t3_battle") Scenario.st1).2))
      "t1_command"
  = Some 3.
Proof.
  destruct
    (proj1
       (skirmish_top_level_is_linked (Scenario.engine (Scenario.t0 + 700))
          (Scenario.world (Ret None)) Scenario.attack_10
          (Scenario.in_reply_to "t3_battle") Scenario.st1 Scenario.B1
          (SkirmishAction.mk 3 None (Some 1) "alice" 10 "infantry" true None)
          (create_skirmish (Scenario.engine (Scenario.t0 + 700)) Scenario.B1 10 "infantry"
             (session Scenario.st1)).2 _ _
          eq_refl eq_refl eq_refl eq_refl (surjective_pairing _)) I)
    as (_ & Hsession & _ & _).
  rewrite Hsession. vm_compute. reflexivity.
Defined.

(** X12.  A top-level skirmish that the engine refuses with one of its typed
    failures is answered by one reply and nothing else, in every world:
    nothing is committed, the session is as the engine left it.  Not more
    than nothing asks for "at least 1 troop"; a TimingException that is not
    'late' counts as too early; 'late' reports the lockout of the battle.
    The handler returns normally unless the reply itself raises something
    other than an APIException or a Timeout. *)
Theorem skirmish_refusal_only_replies E W self context st current e s1 r st' :
  SkirmishCommand.getattr_was_comment (comment context) = true ->
  battle_of_thread (pending (session st)) (Comment.link_id (comment context))
  = Some current ->
  Comment.link_id (comment context) = Comment.parent_id (comment context) ->
  create_skirmish E current (SkirmishCommand.amount self)
    (SkirmishCommand.troop_type self) (session st) = (Raise e, s1) ->
  typed_skirmish_failure e = true ->
  SkirmishCommand.execute E W self context st = (r, st') ->
  let created :=
    EvCreateSkirmish current (SkirmishCommand.amount self)
      (SkirmishCommand.troop_type self) in
  session st' = s1 /\
  exists reply ws,
    trace st' = trace st ++ created :: EvReply reply :: ws /\
    Forall (fun ev => is_warning ev = true) ws /\
    (soft (comment_reply W (trace st ++ [created]) reply) -> r = Ret tt) /\
    (forall requested available,
        e = InsufficientException requested available -> requested <= 0 ->
        reply = "You must use at least 1 troop!") /\
    (forall side, e = TimingException side -> side <> "late" ->
                  reply = "The battle has not yet begun!") /\
    (e = TimingException "late" ->
     reply = "Top-level attacks are disallowed in the last " +:+
             fmt_d (Battle.lockout current) +:+ " seconds of a battle") /\
    (forall friendly, e = TeamException friendly ->
        reply = if friendly then "You cannot attack someone on your team"
                else "You cannot aid the enemy!").
Proof.
  intros Hin Hbattle Htop Hcreate He.
  rewrite (skirmish_top_run E W self context st current Hin Hbattle _ _ Htop Hcreate).
  intros Hrun created. fold created in Hrun.
  destruct (skirmish_clause_reply E W current e (after_call st created s1) He)
    as (clause & reply & Hclause & Heq & Htexts).
  rewrite Hclause, Heq in Hrun.
  destruct (reply_only W reply _ r st' Hrun) as (Hs & (ws & Ht & Hws) & Hr).
  split; [exact Hs|]. exists reply, ws.
  split; [|split; [done | split; [exact Hr | exact Htexts]]].
  rewrite Ht. cbn. by rewrite <- app_assoc.
Qed.

(** alice commits no troops at all. *)
Lemma skirmish_refusal_only_replies_witness :
  exists ws,
    trace
      (SkirmishCommand.execute (Scenario.engine (Scenario.t0 + 700))
         (Scenario.world (Ret None)) (SkirmishCommand.mk "attack" 0 "infantry")
         (Scenario.in_reply_to "t3_battle") Scenario.st1).2 =
    EvCreateSkirmish Scenario.B1 0 "infantry" ::
    EvReply "You must use at least 1 troop!" :: ws.
Proof.
  destruct
    (skirmish_refusal_only_replies (Scenario.engine (Scenario.t0 + 700))
       (Scenario.world (Ret None)) (SkirmishCommand.mk "attack" 0 "infantry")
       (Scenario.in_reply_to "t3_battle") Scenario.st1 Scenario.B1
       (InsufficientException 0 70) (session Scenario.st1) _ _
       eq_refl eq_refl eq_refl eq_refl eq_refl (surjective_pairing _))
    as (_ & reply & ws & Ht & _ & _ & Htext & _).
  exists ws. rewrite Ht. by rewrite (Htext 0 70 eq_refl ltac:(lia)).
Defined.



Lemma emits_extract (P : Event -> Prop) W context battle :
  (forall message, P (EvWarning message)) ->
  P (EvGetInfo (Comment.parent_id (comment context))) -> P EvCommit ->
  emits P (SkirmishCommand.extract_subskirmish W context battle).
Proof.
  intros Hw Hg Hc. unfold SkirmishCommand.extract_subskirmish.
  apply emits_failable; [done|].
  destruct (Comment.author (comment context)); [|apply emits_ret].
  apply emits_bind; [apply (emits_pure P (fun st => Ret _))|]. intros found.
  destruct (bool_decide (found <> O)); [apply emits_ret|].
  apply emits_bind; [by apply emits_remote|]. intros [parent|].
  - destruct (Thing.author parent); [|apply emits_ret].
    destruct (bool_decide _); [|apply (emits_pure P (fun _ => _))].
    apply emits_bind; [apply emits_modify_session|]. intros _.
    apply emits_bind; [by apply emits_commit|]. intros _. apply emits_ret.
  - apply emits_bind; [|intros _; apply emits_ret].
    by apply emits_emit.
Qed.

(** X14.  A reply to a message that is no tracked comment and from which no
    skirmish id is recovered (none, or the id 0) is refused, in every world:
    the engine is not called, the refusal is posted, and the session is as it
    was or has gained the marker of the reconciliation and nothing more.
    When the refusal is delivered, or fails with an APIException or a
    Timeout, it is the only reply and the handler returns normally. *)
Theorem skirmish_unresolved_parent_is_refused E W self context st current sub st0 r st' :
  SkirmishCommand.getattr_was_comment (comment context) = true ->
  battle_of_thread (pending (session st)) (Comment.link_id (comment context))
  = Some current ->
  Comment.link_id (comment context) <> Comment.parent_id (comment context) ->
  skirmish_named (pending (session st)) (Comment.parent_id (comment context)) = None ->
  SkirmishCommand.extract_subskirmish W context current st = (Ret sub, st0) ->
  sub = None \/ sub = Some 0 ->
  SkirmishCommand.execute E W self context st = (r, st') ->
  let refusal :=
    "You can only use skirmish commands in reply to other confirmed skirmish commands" in
  session st' = session st0 /\
  (session st0 = session st \/ exists p, session st0 = mark_processed p (session st)) /\
  exists evs more,
    trace st' = trace st ++ evs ++ EvReply refusal :: more /\
    Forall (fun ev => is_engine_call ev = false) evs /\
    Forall (fun ev => is_notice ev = true) more /\
    (soft (comment_reply W (trace st0) refusal) ->
     r = Ret tt /\ Forall (fun ev => is_warning ev = true) more).
Proof.
  intros Hin Hbattle Hsub Hparent Hextract Hnone.
  assert (Hres : SkirmishCommand.resolve_parent W context current st = (Ret None, st0)).
  { rewrite resolve_untracked by exact Hparent. rewrite Hextract.
    destruct Hnone as [-> | ->]; [done|].
    by rewrite bool_decide_eq_false_2 by (by intros ?). }
  rewrite (skirmish_unresolved_run E W self context st current Hin Hbattle st0 Hsub Hres).
  intros Hrun refusal. fold refusal in Hrun.
  destruct (emits_extract (fun ev => is_engine_call ev = false) W context current
              ltac:(done) eq_refl eq_refl _ _ _ Hextract) as (evs & Ht0 & Hevs).
  assert (Hmark : session st0 = session st \/
                  exists p, session st0 = mark_processed p (session st)).
  { destruct (extract_effect W context current st _ _ Hextract) as [?|(_ & _ & ?)]; eauto. }
  unfold try_except in Hrun.
  destruct ((Context_reply W refusal ;; ret tt) st0) as [r0 st1] eqn:Hreply.
  destruct (reply_only W refusal st0 r0 st1 Hreply) as (Hs1 & (ws & Ht1 & Hws) & Hr0).
  assert (Hnotice : Forall (fun ev => is_notice ev = true) ws)
    by (eapply Forall_impl; [exact Hws | apply warning_is_notice]).
  destruct r0 as [[]|e].
  - injection Hrun as <- <-. split; [done|]. split; [done|].
    exists evs, ws. split; [by rewrite Ht1, Ht0, <- app_assoc|].
    split; [done|]. split; [done|]. by intros _.
  - destruct (skirmish_clauses E W current e) as [clause|] eqn:Hclause.
    + destruct (skirmish_clauses_frame E W current e clause st1 r st' Hclause Hrun)
        as (Hs & evs2 & Ht & Hevs2).
      split; [by rewrite Hs|]. split; [done|].
      exists evs, (ws ++ evs2). split; [|split; [done|split]].
      * rewrite Ht, Ht1, Ht0. by rewrite <- !app_assoc.
      * by apply Forall_app.
      * intros Hsoft. by specialize (Hr0 Hsoft).
    + injection Hrun as <- <-. split; [done|]. split; [done|].
      exists evs, ws. split; [by rewrite Ht1, Ht0, <- app_assoc|].
      split; [done|]. split; [done|]. intros Hsoft. by specialize (Hr0 Hsoft).
Qed.

(** alice replies to the remark of a bystander: the remark is marked, the
    command refused. *)
Lemma skirmish_unresolved_parent_is_refused_witness :
  session
    (SkirmishCommand.execute (Scenario.engine (Scenario.t0 + 700))
       (Scenario.world (Ret None)) Scenario.attack_10
       (Scenario.in_reply_to "t1_chatter") Scenario.st1).2
  = mark_processed (Processed.mk "t1_chatter" 1) (session Scenario.st1).
Proof.
  exact
    (proj1
       (skirmish_unresolved_parent_is_refused (Scenario.engine (Scenario.t0 + 700))
          (Scenario.world (Ret None)) Scenario.attack_10
          (Scenario.in_reply_to "t1_chatter") Scenario.st1 Scenario.B1 None
          (SkirmishCommand.extract_subskirmish (Scenario.world (Ret None))
             (Scenario.in_reply_to "t1_chatter") Scenario.B1 Scenario.st1).2 _ _
          eq_refl eq_refl ltac:(discriminate) eq_refl eq_refl (or_introl eq_refl)
          (surjective_pairing _))).
Defined.

(** X15.  The reconciliation raises nothing of its own: the number after a marker
    is always one that [int] reads, and is not negative; what the fetch of
    the parent raises beyond an APIException or a Timeout is all that comes
    out of it. *)
Theorem reconciliation_raises_only_what_the_fetch_raises W context battle st :
  (forall body, exists found,
      SkirmishCommand.extract_marker body = Ret found /\
      forall n, found = Some n -> 0 <= n) /\
  (forall e st',
      SkirmishCommand.extract_subskirmish W context battle st = (Raise e, st') ->
      reddit_get_info W (trace st) (Comment.parent_id (comment context)) = Raise e /\
      infrastructure e = false /\
      session st' = session st).
Proof.
  split.
  - intros body. exists (marker_id body). split; [apply extract_marker_eq|].
    apply marker_id_nonneg.
  - intros e st'. unfold SkirmishCommand.extract_subskirmish, failable, try_except.
    destruct (Comment.author (comment context)); [|done].
    unfold bind at 1, query_count at 1. destruct (bool_decide _); [done|].
    unfold bind at 1, remote at 1.
    destruct (reddit_get_info W (trace st) _) as [[parent|]|e'].
    + destruct (Thing.author parent); [|done]. destruct (bool_decide _); [done|].
      by rewrite extract_marker_eq.
    + done.
    + destruct e'; try done; by intros [= <- <-].
Qed.

(** A fetch that raises a ValueError: the reconciliation passes it on and
    leaves the session alone. *)
Lemma reconciliation_raises_only_what_the_fetch_raises_witness :
  infrastructure ValueError = false /\
  session
    (SkirmishCommand.extract_subskirmish
       {| comment_reply := fun _ _ => Ret None;
          reddit_submit := fun _ _ _ _ => Ret None;
          reddit_get_info := fun _ _ => Raise ValueError;
          clock := fun _ => 0 |}
       (Scenario.in_reply_to "t1_chatter") Scenario.B1 Scenario.st1).2
  = session Scenario.st1.
Proof.
  exact
    (proj2
       (proj2
          (reconciliation_raises_only_what_the_fetch_raises
             {| comment_reply := fun _ _ => Ret None;
                reddit_submit := fun _ _ _ _ => Ret None;
                reddit_get_info := fun _ _ => Raise ValueError;
                clock := fun _ => 0 |}
             (Scenario.in_reply_to "t1_chatter") Scenario.B1 Scenario.st1)
          ValueError _ eq_refl)).
Defined.

(** ** [DefectCommand] *)

(** X16.  Without a team the command changes sides: from team 0 to team 1 and
    back.  A player whose team is above 2 or below -1 gets an IndexError
    before anything was asked of the engine. *)
Theorem defect_without_team_changes_sides defect E W st :
  let team := User.team (player (pending (session st))) in
  (team = 0 \/ team = 1 ->
   DefectCommand.execute defect E W (DefectCommand.mk None) st =
   DefectCommand.execute defect E W (DefectCommand.mk (Some (1 - team))) st) /\
  (team < -1 \/ 2 < team ->
   DefectCommand.execute defect E W (DefectCommand.mk None) st =
   inl list_index_out_of_range).
Proof.
  intros team. unfold DefectCommand.execute, DefectCommand.target. cbn [DefectCommand.team].
  fold team. split.
  - by intros [-> | ->].
  - intros Hrange. unfold py_index. cbn [length].
    destruct Hrange as [Hlow | Hhigh].
    + by rewrite !bool_decide_eq_false_2 by lia.
    + rewrite bool_decide_eq_true_2 by lia.
      destruct (Z.to_nat (team - 1)) as [|[|n]] eqn:Hn; [lia | lia | done].
Qed.

(** alice, of team 0, defects without naming a team. *)
Lemma defect_without_team_changes_sides_witness :
  DefectCommand.execute (Fixture.defect Fixture.capital) (Scenario.engine Scenario.t0)
    (Scenario.world (Ret None)) (DefectCommand.mk None) Scenario.st0 =
  DefectCommand.execute (Fixture.defect Fixture.capital) (Scenario.engine Scenario.t0)
    (Scenario.world (Ret None)) (DefectCommand.mk (Some 1)) Scenario.st0.
Proof.
  exact
    (proj1
       (defect_without_team_changes_sides (Fixture.defect Fixture.capital)
          (Scenario.engine Scenario.t0) (Scenario.world (Ret None)) Scenario.st0)
       (or_introl eq_refl)).
Defined.

(** X17.  What the handler adds to [player.defect], in every world: nothing
    to the session - it neither commits nor rolls back - and replies only.
    After a defection the first reply names the team and the region the
    player has now; a TeamException and a TimingException are answered with
    their texts and nothing else; any other exception goes to the caller
    without a reply.  When the reply is delivered, or fails with an
    APIException or a Timeout, it is the only one and the handler returns
    normally. *)
Theorem defect_only_replies defect E W self st team res s1 r st' :
  DefectCommand.target self (player (pending (session st))) = Some team ->
  defect team (session st) = (res, s1) ->
  DefectCommand.execute defect E W self st = inr (r, st') ->
  let answered reply :=
    exists evs,
      trace st' = trace st ++ EvReply reply :: evs /\
      Forall (fun ev => is_notice ev = true) evs /\
      (soft (comment_reply W (trace st) reply) ->
       r = Ret tt /\ Forall (fun ev => is_warning ev = true) evs) in
  let refused reply :=
    exists ws,
      trace st' = trace st ++ EvReply reply :: ws /\
      Forall (fun ev => is_warning ev = true) ws /\
      (soft (comment_reply W (trace st) reply) -> r = Ret tt) in
  session st' = s1 /\
  match res with
  | Ret _ =>
      answered
        ("Done - you are now on team " +:+
         num_to_team E (User.team (player (pending s1))) +:+
         " and encamped" +:+ " in their capital of " +:+
         region_markdown E (User.region (player (pending s1))))
  | Raise (TeamException _) =>
      refused "You're trying to defect to the team you're already on!"
  | Raise (TimingException _) =>
      refused "You can only defect if you haven't taken any actions."
  | Raise e => r = Raise e /\ trace st' = trace st
  end.
Proof.
  intros Htarget Hdefect Hrun answered refused. subst answered refused.
  revert Hrun. unfold DefectCommand.execute. rewrite Htarget.
  unfold try_except, bind at 1. rewrite Hdefect.
  set (st1 := {| session := s1; trace := trace st |}).
  assert (Hrefused : forall reply,
             (Context_reply W reply ;; ret tt) st1 = (r, st') ->
             session st' = s1 /\
             exists ws,
               trace st' = trace st ++ EvReply reply :: ws /\
               Forall (fun ev => is_warning ev = true) ws /\
               (soft (comment_reply W (trace st) reply) -> r = Ret tt)).
  { intros reply Hrun.
    destruct (reply_only W reply st1 r st' Hrun) as (Hs & (ws & Ht & Hws) & Hr).
    split; [exact Hs|]. by exists ws. }
  destruct res as [[]|e]; cbv beta iota.
  - unfold bind at 1, get_player at 1. cbn [session pending st1].
    set (reply := "Done - you are now on team " +:+
                  num_to_team E (User.team (player (pending s1))) +:+
                  " and encamped" +:+ " in their capital of " +:+
                  region_markdown E (User.region (player (pending s1)))).
    destruct ((Context_reply W reply ;; ret tt) st1) as [r0 st2] eqn:Hreply.
    destruct (reply_only W reply st1 r0 st2 Hreply) as (Hs2 & (ws & Ht2 & Hws) & Hr0).
    assert (Hnotice : Forall (fun ev => is_notice ev = true) ws)
      by (eapply Forall_impl; [exact Hws | apply warning_is_notice]).
    assert (Hplain : inr (r0, st2) = @inr IndexError _ (r, st') ->
                     session st' = s1 /\
                     exists evs,
                       trace st' = trace st ++ EvReply reply :: evs /\
                       Forall (fun ev => is_notice ev = true) evs /\
                       (soft (comment_reply W (trace st) reply) ->
                        r = Ret tt /\ Forall (fun ev => is_warning ev = true) evs)).
    { intros [= <- <-]. split; [exact Hs2|]. exists ws.
      split; [exact Ht2|]. split; [done|]. intros Hsoft. split; [by apply Hr0 | done]. }
    assert (Hagain : forall e reply',
               r0 = Raise e ->
               inr ((Context_reply W reply' ;; ret tt) st2) = @inr IndexError _ (r, st') ->
               session st' = s1 /\
               exists evs,
                 trace st' = trace st ++ EvReply reply :: evs /\
                 Forall (fun ev => is_notice ev = true) evs /\
                 (soft (comment_reply W (trace st) reply) ->
                  r = Ret tt /\ Forall (fun ev => is_warning ev = true) evs)).
    { intros e reply' -> [= Hrun].
      destruct (reply_only W reply' st2 r st' Hrun) as (Hs & (ws' & Ht & Hws') & _).
      split; [by rewrite Hs|]. exists (ws ++ EvReply reply' :: ws').
      split; [by rewrite Ht, Ht2, <- app_assoc|]. split.
      - apply Forall_app. split; [done|]. constructor; [done|].
        eapply Forall_impl; [exact Hws' | apply warning_is_notice].
      - intros Hsoft. by specialize (Hr0 Hsoft). }
    destruct r0 as [[]|e]; [exact Hplain|].
    destruct e; try exact Hplain; exact (Hagain _ _ eq_refl).
  - destruct e; try (intros [= <- <-]; by split);
      intros [= Hrun]; destruct (Hrefused _ Hrun) as (Hs & ws & Ht & Hws & Hr);
      (split; [exact Hs|]); by exists ws.
Qed.

(** bob has committed troops already: he cannot defect any more. *)
Lemma defect_only_replies_witness :
  session
    match
      DefectCommand.execute (Fixture.defect Fixture.capital) (Scenario.engine Scenario.t0)
        (Scenario.world (Ret None)) (DefectCommand.mk None) Fixture.st_bob
    with
    | inr run => run.2
    | inl _ => Fixture.st_bob
    end
  = session Fixture.st_bob.
Proof.
  exact
    (proj1
       (defect_only_replies (Fixture.defect Fixture.capital) (Scenario.engine Scenario.t0)
          (Scenario.world (Ret None)) (DefectCommand.mk None) Fixture.st_bob 0
          (Raise (TimingException "late")) (session Fixture.st_bob)
          (Ret tt)
          (extend Fixture.st_bob
             [EvReply "You can only defect if you haven't taken any actions."])
          eq_refl eq_refl eq_refl)).
Defined.

(** ** [PromoteCommand] *)

Lemma find_name_eq who (l : list User.t) person :
  List.find (fun u => bool_decide (User.name u = who)) l = Some person ->
  User.name person = who.
Proof.
  intros Hfind. apply List.find_some in Hfind as [_ Hname].
  by apply bool_decide_eq_true_1 in Hname.
Qed.

Lemma find_update_first who f (l : list User.t) person :
  (forall u, User.name (f u) = User.name u) ->
  List.find (fun u => bool_decide (User.name u = who)) l = Some person ->
  List.find (fun u => bool_decide (User.name u = who)) (update_first who f l)
  = Some (f person).
Proof.
  intros Hf. induction l as [|u l IH]; [done|]. cbn.
  case_bool_decide as Hu.
  - intros [= <-]. cbn. by rewrite bool_decide_eq_true_2 by (by rewrite Hf).
  - intros Hfind. cbn. rewrite bool_decide_eq_false_2 by done. by apply IH.
Qed.

Lemma find_update_other who other f (l : list User.t) :
  (forall u, User.name (f u) = User.name u) -> other <> who ->
  List.find (fun u => bool_decide (User.name u = other)) (update_first who f l)
  = List.find (fun u => bool_decide (User.name u = other)) l.
Proof.
  intros Hf Hother. induction l as [|u l IH]; [done|]. cbn [update_first].
  destruct (bool_decide (User.name u = who)) eqn:Hu; cbn [List.find].
  - apply bool_decide_eq_true_1 in Hu. rewrite Hf.
    by rewrite !bool_decide_eq_false_2 by congruence.
  - by rewrite IH.
Qed.

(** The row of [who] after the assignment, and the rows of the others *)
Lemma user_named_update d who f person :
  (forall u, User.name (f u) = User.name u) ->
  user_named d who = Some person ->
  user_named (update_user (User.name person) f d) who = Some (f person) /\
  forall other, other <> who ->
    user_named (update_user (User.name person) f d) other = user_named d other.
Proof.
  intros Hf Hfind. rewrite (find_name_eq _ _ _ Hfind).
  revert Hfind. unfold user_named, update_user, all_users. cbn [List.find].
  case_bool_decide as Hplayer.
  - intros [= <-]. cbn. rewrite Hf, bool_decide_eq_true_2 by done. split; [done|].
    intros other Hother. by rewrite !bool_decide_eq_false_2 by congruence.
  - intros Hfind. cbn. rewrite bool_decide_eq_false_2 by done. split.
    + by apply find_update_first.
    + intros other Hother. destruct (bool_decide (User.name (player d) = other)); [done|].
      by apply find_update_other.
Qed.

(** X18.  A leader promotes or demotes a known user.  In every world the
    row of that user gets the leader flag the command asked for - set for
    'promote', cleared for any other direction - and is otherwise as before,
    as are the rows of all other users.  When the reply is delivered, or
    fails with an APIException or a Timeout, the command commits this and
    returns; when the reply raises anything else, the exception goes to the
    caller and nothing is committed. *)
Theorem promote_by_leader_sets_flag W tokens self st person r st' :
  PromoteCommand.init tokens = Ret self ->
  user_named (pending (session st)) (PromoteCommand.who self) = Some person ->
  User.leader (player (pending (session st))) = true ->
  PromoteCommand.execute W self st = (r, st') ->
  let reply :=
    PromoteCommand.who self +:+ " has been " +:+
    PromoteCommand.direction_str self +:+ "d!" in
  let flag := bool_decide (tokens !! "direction" = Some "promote") in
  user_named (pending (session st')) (PromoteCommand.who self)
  = Some (set_leader flag person) /\
  (forall other, other <> PromoteCommand.who self ->
     user_named (pending (session st')) other = user_named (pending (session st)) other) /\
  (soft (comment_reply W (trace st) reply) ->
   r = Ret tt /\
   committed (session st') = pending (session st') /\
   exists ws,
     trace st' = trace st ++ EvReply reply :: ws ++ [EvCommit] /\
     Forall (fun ev => is_warning ev = true) ws) /\
  (~ soft (comment_reply W (trace st) reply) ->
   (exists e, r = Raise e) /\
   committed (session st') = committed (session st) /\
   trace st' = trace st ++ [EvReply reply]).
Proof.
  intros Hinit Hperson Hleader Hrun reply flag. revert Hrun.
  unfold PromoteCommand.execute, bind at 1, query_first at 1.
  fold (user_named (pending (session st)) (PromoteCommand.who self)). rewrite Hperson.
  unfold bind at 1, get_player at 1. rewrite Hleader.
  unfold bind at 1, modify_session at 1. fold reply.
  assert (Hflag : bool_decide (PromoteCommand.direction self <> 0) = flag).
  { revert Hinit. unfold PromoteCommand.init, flag.
    destruct (tokens !! "who"); [|done]. destruct (tokens !! "direction") as [d|]; [|done].
    intros [= <-]. cbn. case_bool_decide as Hd.
    - subst d. by rewrite !bool_decide_eq_true_2.
    - rewrite !bool_decide_eq_false_2; [done | congruence | lia]. }
  rewrite Hflag.
  set (st1 := {| session := with_pending (update_user (User.name person) (set_leader flag))
                              (session st);
                 trace := trace st |}).
  pose proof (user_named_update (pending (session st)) (PromoteCommand.who self)
                (set_leader flag) person (fun u => eq_refl) Hperson) as [Hrow Hothers].
  unfold bind at 1. rewrite Context_reply_eq. cbn [trace st1].
  destruct (comment_reply W (trace st) reply) as [a|e] eqn:Hreply.
  - unfold commit, bind, emit, modify_session. cbn. intros [= <- <-]. cbn.
    split; [exact Hrow|]. split; [exact Hothers|]. split.
    + intros _. split; [done|]. split; [done|].
      exists []. split; [by rewrite <- app_assoc | done].
    + intros Hhard. by destruct Hhard.
  - destruct e;
      try (intros [= <- <-]; cbn; split; [exact Hrow|]; split; [exact Hothers|];
           split; [intros Hs; discriminate Hs
                  | intros _; split; [by eexists | by split]]).
    + unfold commit, bind, emit, modify_session. cbn. intros [= <- <-]. cbn.
      split; [exact Hrow|]. split; [exact Hothers|]. split.
      * intros _. split; [done|]. split; [done|].
        eexists [_]. split; [by rewrite <- app_assoc | by repeat constructor].
      * intros Hhard. by destruct Hhard.
    + unfold commit, bind, emit, modify_session. cbn. intros [= <- <-]. cbn.
      split; [exact Hrow|]. split; [exact Hothers|]. split.
      * intros _. split; [done|]. split; [done|].
        eexists [_]. split; [by rewrite <- app_assoc | by repeat constructor].
      * intros Hhard. by destruct Hhard.
Qed.

(** alice demotes bob. *)
Lemma promote_by_leader_sets_flag_witness :
  User.leader <$>
    user_named
      (pending
         (session
            (PromoteCommand.execute (Scenario.world (Ret None))
               (PromoteCommand.mk "bob" 0 "demote") Fixture.st_court).2))
      "bob"
  = Some false.
Proof.
  assert (Hinit : PromoteCommand.init (list_to_map [("who", "bob"); ("direction", "demote")])
                  = Ret (PromoteCommand.mk "bob" 0 "demote")) by reflexivity.
  destruct
    (promote_by_leader_sets_flag (Scenario.world (Ret None))
       (list_to_map [("who", "bob"); ("direction", "demote")])
       (PromoteCommand.mk "bob" 0 "demote") Fixture.st_court Scenario.bob _ _
       Hinit eq_refl eq_refl (surjective_pairing _))
    as (Hrow & _).
  cbn [PromoteCommand.who] in Hrow. rewrite Hrow. vm_compute. reflexivity.
Defined.

(** X19.  Who is no leader promotes nobody, and nobody unknown is promoted: the
    command answers and leaves every row as it is. *)
Theorem promote_refusals_change_nothing W self st r st' :
  user_named (pending (session st)) (PromoteCommand.who self) = None \/
  User.leader (player (pending (session st))) = false ->
  PromoteCommand.execute W self st = (r, st') ->
  session st' = session st /\
  exists reply ws,
    trace st' = trace st ++ EvReply reply :: ws /\
    Forall (fun ev => is_warning ev = true) ws /\
    reply =
    match user_named (pending (session st)) (PromoteCommand.who self) with
    | None => "I don't know who " +:+ PromoteCommand.who self +:+ " is"
    | Some _ => "You can't promote if you aren't a leader yourself!"
    end.
Proof.
  intros Hwhy. unfold PromoteCommand.execute, bind at 1, query_first at 1.
  fold (user_named (pending (session st)) (PromoteCommand.who self)).
  destruct (user_named (pending (session st)) (PromoteCommand.who self)) as [person|].
  - destruct Hwhy as [?|Hleader]; [done|].
    unfold bind at 1, get_player at 1. rewrite Hleader. intros Hrun.
    destruct (reply_only W _ st r st' Hrun) as (Hs & (ws & Ht & Hws) & _).
    split; [done|]. by eexists _, ws.
  - intros Hrun. destruct (reply_only W _ st r st' Hrun) as (Hs & (ws & Ht & Hws) & _).
    split; [done|]. by eexists _, ws.
Qed.

(** carol, who is no leader, tries to promote bob. *)
Lemma promote_refusals_change_nothing_witness :
  session
    (PromoteCommand.execute (Scenario.world (Ret None))
       (PromoteCommand.mk "bob" 1 "promote") Fixture.st_carol).2
  = session Fixture.st_carol.
Proof.
  exact
    (proj1
       (promote_refusals_change_nothing (Scenario.world (Ret None))
          (PromoteCommand.mk "bob" 1 "promote") Fixture.st_carol _ _
          (or_intror eq_refl) (surjective_pairing _))).
Defined.

(** ** [StatusCommand] *)

(** X20.  The status command only reads: it replies once, with the status of the
    session as it found it, and the session stays as it was. *)
Theorem status_is_read_only E V W st r st' :
  StatusCommand.execute E V W st = (r, st') ->
  session st' = session st /\
  (exists ws,
      trace st' = trace st ++ EvReply (StatusCommand.status_for E V (session st)) :: ws /\
      Forall (fun ev => is_warning ev = true) ws) /\
  (soft (comment_reply W (trace st) (StatusCommand.status_for E V (session st))) ->
   r = Ret tt).
Proof.
  unfold StatusCommand.execute, bind at 1, get_session at 1. apply reply_only.
Qed.

(** alice asks for her status while on the march, in a world that answers
    nothing. *)
Lemma status_is_read_only_witness :
  session
    (StatusCommand.execute (Scenario.engine Scenario.t0) Fixture.views Scenario.world_deaf
       Scenario.st_marching).2
  = session Scenario.st_marching.
Proof.
  exact
    (proj1
       (status_is_read_only (Scenario.engine Scenario.t0) Fixture.views Scenario.world_deaf
          Scenario.st_marching _ _ (surjective_pairing _))).
Defined.
